(** * A shallow embedding of chibisafe/uploader

    Two packages are modelled:
    - [uploader-module] (server): [checkIfUuid], [checkHeaders],
      [processBusboy], [handleFileWithChunks], [joinChunks], [processFile];
    - [uploader-client] (browser): [getChunks], [sendChunk],
      [manageRetries], [actuallySendChunks], [sendChunks], [chibiUploader].

    Node's file system is a finite map from paths to byte lists plus the set
    of existing directories. A path is a pair (directory, base name), which
    is what [path.join(dir, name)] denotes. Promises are modelled by
    [outcome]: resolved, rejected, or never settled ([Pending]: the code
    throws inside an event listener, away from the promise's executor). *)

From Stdlib Require Import Ascii String.
From stdpp Require Import base gmap sets list strings pretty.

Open Scope string_scope.

(* ------------------------------------------------------------------ *)
(** ** Bytes, paths and the file system *)

Abbreviation bytes := (list Byte.byte).

(** [path.join(dir, name)] for a file; directories are plain strings. *)
Abbreviation fpath := (string * string)%type.

Definition dir_join (d name : string) : string := d +:+ "/" +:+ name.

Record fs := mkFs {
  files : gmap (string * string) bytes;
  dirs : gset string
}.

(** [jetpack.dir(d)] / [jetpack.dirAsync(d)]: make sure the directory exists. *)
Definition fs_mkdir (d : string) (s : fs) : fs :=
  mkFs (files s) ({[d]} ∪ dirs s).

(** [createWriteStream(p)] opens [p] with flag ['w']: create or truncate.
    The stream fails with [ENOENT] when the directory of [p] is missing;
    that case is not modelled: the handlers create the directory first
    ([processFile] the upload directory, [handleFileWithChunks] the
    temporary one). *)
Definition fs_create (p : fpath) (s : fs) : fs :=
  mkFs (<[p := []]> (files s)) (dirs s).

(** [writeStream.write(data)]: append to the open file. *)
Definition fs_append (p : fpath) (data : bytes) (s : fs) : fs :=
  mkFs (<[p := (default [] (files s !! p) ++ data)%list]> (files s)) (dirs s).

(** [jetpack.removeAsync(d)]: remove the directory and everything in it. *)
Definition fs_remove_dir (d : string) (s : fs) : fs :=
  mkFs (filter (fun kv : fpath * bytes => kv.1.1 <> d) (files s)) (dirs s ∖ {[d]}).

(** [jetpack.removeAsync(p)] on a file. *)
Definition fs_remove_file (p : fpath) (s : fs) : fs :=
  mkFs (delete p (files s)) (dirs s).

(* ------------------------------------------------------------------ *)
(** ** Promises with the file system as state *)

Inductive outcome (A : Type) : Type :=
| Resolved (a : A)
| Rejected (msg : string)
| Pending.
Arguments Resolved {A} a.
Arguments Rejected {A} msg.
Arguments Pending {A}.

Definition M (A : Type) : Type := fs -> outcome A * fs.

Definition M_ret {A} (a : A) : M A := fun s => (Resolved a, s).

Definition M_bind {A B} (m : M A) (k : A -> M B) : M B :=
  fun s =>
    match m s with
    | (Resolved a, s') => k a s'
    | (Rejected e, s') => (Rejected e, s')
    | (Pending, s') => (Pending, s')
    end.

Definition M_reject {A} (e : string) : M A := fun s => (Rejected e, s).
Definition M_pending {A} : M A := fun s => (Pending, s).
Definition M_modify (f : fs -> fs) : M unit := fun s => (Resolved tt, f s).
Definition M_get : M fs := fun s => (Resolved s, s).

Notation "x <-- m ;; k" := (M_bind m (fun x => k))
  (at level 100, m at next level, right associativity).
Notation "m ;;; k" := (M_bind m (fun _ => k))
  (at level 100, right associativity).

(* ------------------------------------------------------------------ *)
(** ** Server results *)

Abbreviation FileMetadata := (gmap string string).

(** [interface Result]; [undefined] fields are [None]. *)
Record Result := mkResult {
  isChunkedUpload : bool;
  ready : option bool;
  path : option fpath;
  metadata : option FileMetadata
}.

(** The value [processBusboy] resolves with for a non-final chunk:
    [{ isChunkedUpload: true, ready: false }]. *)
Definition intermediate_result : Result := mkResult true (Some false) None None.

(* ------------------------------------------------------------------ *)
(** ** [joinChunks] *)

(** Name of chunk file [n]: [chunkCount.toString()]. *)
Definition chunk_name (n : nat) : string := pretty n.

(** [pipeChunk]: read chunk [chunkCount] of [dirPath], append it to the
    final file, then go on with [chunkCount + 1] while it is at most
    [totalChunks], else end the stream, remove the temporary directory and
    resolve. [fuel] bounds the recursion: [totalChunks] is enough. The
    ['data'] listener's [!chunk] test never fires on a file stream (data
    events carry non-null buffers) and is not modelled. *)
Fixpoint pipeChunk (fuel : nat) (finalFilePath : fpath) (dirPath : string)
    (totalChunks chunkCount : nat) : M Result :=
  fun s =>
    match files s !! (dirPath, chunk_name chunkCount) with
    | None => (Rejected "Error reading chunk", s)
    | Some data =>
        let s1 := fs_append finalFilePath data s in
        let chunkCount' := S chunkCount in
        if Nat.leb chunkCount' totalChunks then
          match fuel with
          | O => (Pending, s1)
          | S fuel' => pipeChunk fuel' finalFilePath dirPath totalChunks chunkCount' s1
          end
        else
          (Resolved (mkResult true (Some false) (Some finalFilePath) None),
           fs_remove_dir dirPath s1)
    end.

Definition joinChunks (finalFilePath : fpath) (dirPath : string) (totalChunks : nat)
    : M Result :=
  M_modify (fs_create finalFilePath) ;;;
  pipeChunk totalChunks finalFilePath dirPath totalChunks 1.

(* ------------------------------------------------------------------ *)
(** ** Client chunk planning: [totalChunks] and [getChunks] *)

(** [Math.ceil(fileSize / chunkSize)] for a positive integral chunk size.
    With [chunkSize = 0] (which [validateOptions] lets through) the code
    computes [NaN] or [Infinity]; this value ([0]) is not the code's, and
    the results below about chunk counts assume a positive chunk size. *)
Definition total_chunks (fileSize chunkSize : nat) : nat :=
  (fileSize + chunkSize - 1) / chunkSize.

(** [Blob.slice(start, end)]: bytes [min(start,size) .. min(end,size)). *)
Definition blob_slice (data : bytes) (start stop : nat) : bytes :=
  firstn (stop - start) (skipn start data).

Record ChunkDesc := mkChunk { index : nat; chunk : bytes }.

(** [getChunks]: [for (let i = 0; i < totalChunks; i++)] push
    [{ index: i + 1, chunk: file.slice(chunkSize * i, chunkSize * i + chunkSize) }]. *)
Definition getChunks (file : bytes) (chunkSize totalChunks : nat) : list ChunkDesc :=
  map (fun i => let start := chunkSize * i in
                mkChunk (i + 1) (blob_slice file start (start + chunkSize)))
      (seq 0 totalChunks).

(** The byte range the spec assigns to descriptor [i] (0-based) of a file
    of [fileSize] bytes: [[i * chunkSize, min((i + 1) * chunkSize, fileSize))]. *)
Definition spec_start (chunkSize i : nat) : nat := chunkSize * i.
Definition spec_end (fileSize chunkSize i : nat) : nat :=
  Nat.min (chunkSize * i + chunkSize) fileSize.

(** The chunk files a session leaves in its temporary directory once every
    chunk has been received: file [index] holds [chunk]. *)
Definition store_chunks (dirPath : string) (cs : list ChunkDesc) (s : fs) : fs :=
  foldr (fun c s' => mkFs (<[(dirPath, chunk_name (index c)) := chunk c]> (files s')) (dirs s'))
        s cs.

(* ------------------------------------------------------------------ *)
(** ** Header validation: [checkIfUuid], [checkHeaders] *)

(** Incoming headers, lower-cased names to values. Node gives a custom
    header as one string (repeated ones are joined with [", "]), so the
    [typeof ... !== 'string'] branch of [checkIfUuid] has no counterpart. *)
Abbreviation headers_t := (gmap string string).

Definition is_digit (c : Ascii.ascii) : bool :=
  let n := Ascii.nat_of_ascii c in Nat.leb 48 n && Nat.leb n 57.

(** [\da-f]: a digit or a lower-case letter [a]..[f]. *)
Definition is_hex (c : Ascii.ascii) : bool :=
  let n := Ascii.nat_of_ascii c in is_digit c || (Nat.leb 97 n && Nat.leb n 102).

(** The atoms of the UUID regular expression. *)
Inductive cclass := Hex | Dash | Four | V89ab.

Definition cclass_ok (k : cclass) (c : Ascii.ascii) : bool :=
  match k with
  | Hex => is_hex c
  | Dash => Ascii.eqb c "-"%char
  | Four => Ascii.eqb c "4"%char
  | V89ab => existsb (Ascii.eqb c) ["8"; "9"; "a"; "b"]%char
  end.

(** [/[\da-f]{8}-[\da-f]{4}-4[\da-f]{3}-[89ab][\da-f]{3}-[\da-f]{12}/] *)
Definition uuid_pattern : list cclass :=
  repeat Hex 8 ++ [Dash] ++ repeat Hex 4 ++ [Dash; Four] ++ repeat Hex 3
  ++ [Dash; V89ab] ++ repeat Hex 3 ++ [Dash] ++ repeat Hex 12.

(** The pattern matches at the start of [s]. *)
Fixpoint match_at (pat : list cclass) (s : string) : bool :=
  match pat, s with
  | [], _ => true
  | k :: pat', String c s' => cclass_ok k c && match_at pat' s'
  | _ :: _, EmptyString => false
  end.

(** [RegExp.prototype.test] of an unanchored pattern: a match at some position. *)
Fixpoint regex_test (pat : list cclass) (s : string) : bool :=
  match s with
  | EmptyString => match_at pat s
  | String _ s' => match_at pat s || regex_test pat s'
  end.

(** A 36-character value of the UUID v4 syntax with lower-case hex digits,
    [[0-9a-f]{8}-[0-9a-f]{4}-4[0-9a-f]{3}-[89ab][0-9a-f]{3}-[0-9a-f]{12}],
    read position by position. *)
Definition uuid_v4_lower (v : string) : Prop :=
  Forall2 (fun k c => cclass_ok k c = true) uuid_pattern (list_ascii_of_string v).

(** [checkIfUuid]: [inl msg] is a thrown [Error(msg)]. [!headers['chibi-uuid']]
    holds for an absent header and for the empty string. *)
Definition checkIfUuid (headers : headers_t) : string + bool :=
  match headers !! "chibi-uuid" with
  | None => inr false
  | Some v =>
      if String.eqb v "" then inr false
      else if negb (Nat.eqb (String.length v) 36)
      then inl "chibi-uuid does not meet the length criteria"
      else if negb (regex_test uuid_pattern v)
      then inl "chibi-uuid is not a valid uuid"
      else inr true
  end.

(** [/^\d+$/.test(v)] *)
Definition all_digits (v : string) : bool :=
  negb (String.eqb v "") && forallb is_digit (list_ascii_of_string v).

(** [checkHeaders]: both headers present, non-empty and made of digits. *)
Definition checkHeaders (headers : headers_t) : bool :=
  match headers !! "chibi-chunk-number", headers !! "chibi-chunks-total" with
  | Some n, Some t => negb (String.eqb n "") && negb (String.eqb t "")
                      && all_digits n && all_digits t
  | _, _ => false
  end.

Definition decimal_value (v : string) : nat :=
  fold_left (fun acc c => 10 * acc + (Ascii.nat_of_ascii c - 48))
            (list_ascii_of_string v) 0.

(** [Number(headers[h])], [None] standing for [NaN]: an absent header is
    [NaN], [""] is [0], a string of digits is its decimal value. Other
    numeric syntaxes (blanks, [0x], exponents, fractions) are read as
    [NaN]; on the chunked path [checkHeaders] has already excluded them.
    [Number()] gives a double, so the value is exact only up to [2^53]. *)
Definition js_Number (v : option string) : option nat :=
  match v with
  | None => None
  | Some v => if String.eqb v "" then Some 0
              else if all_digits v then Some (decimal_value v) else None
  end.

(** [isBiggerThanMaxSize]: [maxChunkSize * totalChunks > maxFileSize];
    every comparison with [NaN] is false. *)
Definition isBiggerThanMaxSize (maxFileSize maxChunkSize : nat) (totalChunks : option nat)
    : bool :=
  match totalChunks with
  | None => false
  | Some t => Nat.ltb maxFileSize (maxChunkSize * t)
  end.

(* ------------------------------------------------------------------ *)
(** ** Receiving a request: [handleFileWithChunks], [handleSingleFile],
       [processBusboy], [processFile] *)

(** [interface Options] *)
Record Options := mkOptions {
  destination : string;
  maxFileSize : nat;
  maxChunkSize : nat;
  blockedExtensions : list string
}.

(** What busboy reports for a multipart request: the text fields (the
    client appends them before the file part), then one file part with
    its file name, mime type and bytes. *)
Record Request := mkRequest {
  req_headers : headers_t;
  req_fields : list (string * string);
  req_filename : string;
  req_mimeType : string;
  req_file : bytes
}.

(** What [handleFileWithChunks] resolves with. *)
Inductive ChunkUpload :=
| ChunkFinished (finalFilePath : fpath) (dirPath : string) (totalChunks : nat)
| ChunkNotFinished.

(** A rejection raised inside an [async] event listener is never turned
    into a settlement of the enclosing promise: that promise stays pending. *)
Definition M_unhandled {A} (m : M A) : M A :=
  fun s => match m s with
           | (Rejected _, s') => (Pending, s')
           | r => r
           end.

Section Receiver.

(** [path.extname], a Node library function. *)
Variable extname : string -> string.

(** [handleFileWithChunks]: create the temporary directory and the chunk
    file named by the [chibi-chunk-number] header, reject when the index is
    out of range, pipe the body into the chunk file and, on ['close'],
    resolve with the join request when [chunkCount === totalChunks]. The
    first settlement of the promise wins. When the [name] field is missing
    on the last chunk, [path.extname(undefined)] throws inside the
    ['close'] listener, so nothing is settled from there. *)
Definition handleFileWithChunks (destination : string) (headers : headers_t)
    (fileStream : bytes) (metadata : FileMetadata) : M ChunkUpload :=
  fun s =>
    let uuid := default "" (headers !! "chibi-uuid") in
    let filePath := (destination, uuid) in
    let dirPath := dir_join destination (uuid +:+ "_tmp") in
    let chunkPath := (dirPath, default "" (headers !! "chibi-chunk-number")) in
    let chunkCount := js_Number (headers !! "chibi-chunk-number") in
    let totalChunks := js_Number (headers !! "chibi-chunks-total") in
    (* jetpack.dir(dirPath); createWriteStream(chunkPath) *)
    let s1 := fs_create chunkPath (fs_mkdir dirPath s) in
    (* if (chunkCount < 0 || chunkCount > totalChunks) reject(...) *)
    let out_of_range :=
      match chunkCount, totalChunks with
      | Some c, Some t => Nat.ltb t c
      | _, _ => false
      end in
    (* fileStream.pipe(writeStream) *)
    let s2 := fs_append chunkPath fileStream s1 in
    (* writeStream.on('close', ...) *)
    let on_close : outcome ChunkUpload :=
      match chunkCount, totalChunks with
      | Some c, Some t =>
          if Nat.eqb c t then
            match metadata !! "name" with
            | Some name =>
                Resolved (ChunkFinished (destination, uuid +:+ extname name) dirPath t)
            | None => Pending
            end
          else Resolved ChunkNotFinished
      | _, _ => Resolved ChunkNotFinished
      end in
    ((if out_of_range then Rejected "Chunk is out of range" else on_close), s2).

(** [handleSingleFile] *)
Definition handleSingleFile (options : Options) (destination : string)
    (fileStream : bytes) (uuid : string) (metadata : FileMetadata) : M Result :=
  let name := default "" (metadata !! "name") in
  let extension := extname name in
  if bool_decide (extension ∈ blockedExtensions options) then
    M_modify (fs_remove_file (destination, uuid)) ;;;
    M_reject "File extension is blocked"
  else
    let filePath := (destination, uuid +:+ extname name) in
    M_modify (fs_create filePath) ;;;
    M_modify (fs_append filePath fileStream) ;;;
    M_ret (mkResult false (Some true) (Some filePath) None).

(** Busboy's events for the request: every field is stored in [metadata],
    then the file handler stores the mime type. *)
Definition busboy_metadata (req : Request) : FileMetadata :=
  <["type" := req_mimeType req]>
    (foldl (fun m kv => <[kv.1 := kv.2]> m) ∅ (req_fields req)).

(** [processBusboy]; [fresh_uuid] is the value of [uuidv4()] on the
    single-file path. Busboy's [fileSize] limit is [maxChunkSize + 1024]:
    busboy emits ['limit'] as soon as the part's byte count equals it (so
    also for a part of exactly that size), the stream is drained and
    [reachedFileSizeLimit] is set. *)
Definition processBusboy (fresh_uuid : string) (options : Options) (req : Request)
    : M Result :=
  let headers := req_headers req in
  match checkIfUuid headers with
  | inl e => M_reject e
  | inr usingChunks =>
  if usingChunks && negb (checkHeaders headers) then M_reject "Invalid headers" else
  if isBiggerThanMaxSize (maxFileSize options) (maxChunkSize options)
       (js_Number (headers !! "chibi-chunks-total"))
  then M_reject "Chunked upload is above size limit" else
  let limit := maxChunkSize options + 1024 in
  let reachedFileSizeLimit := Nat.leb limit (length (req_file req)) in
  let busboyFile := firstn limit (req_file req) in
  let metadata := busboy_metadata req in
  if reachedFileSizeLimit then
    if usingChunks then
      M_modify (fs_remove_dir (dir_join (destination options)
                  (default "" (headers !! "chibi-uuid") +:+ "_tmp"))) ;;;
      M_reject "Chunk is too big"
    else
      M_modify (fs_remove_file (destination options, fresh_uuid)) ;;;
      M_reject "File is too big"
  else if usingChunks then
    upload <-- M_unhandled (handleFileWithChunks (destination options) headers
                                                 busboyFile metadata) ;;
    match upload with
    | ChunkFinished finalFilePath dirPath totalChunks =>
        stitched <-- M_unhandled (joinChunks finalFilePath dirPath totalChunks) ;;
        M_ret (mkResult (isChunkedUpload stitched) (ready stitched) (path stitched)
                        (Some metadata))
    | ChunkNotFinished => M_ret intermediate_result
    end
  else
    let metadata := <["name" := req_filename req]> metadata in
    upload <-- M_unhandled (handleSingleFile options (destination options) busboyFile
                                             fresh_uuid metadata) ;;
    M_ret (mkResult (isChunkedUpload upload) (ready upload) (path upload) (Some metadata))
  end.

(** [jetpack.inspectAsync(path)], a library function: it rejects with a
    message ([inl]) or resolves with the file size, if any. *)
Variable inspectAsync : option fpath -> fs -> string + option nat.

(** [processFile]: after [processBusboy], [inspectAsync(upload.path)] and
    [upload.metadata.size = inspect?.size]. *)
Definition processFile (fresh_uuid : string) (options : Options) (req : Request)
    : M Result :=
  M_modify (fs_mkdir (destination options)) ;;;
  upload <-- processBusboy fresh_uuid options req ;;
  inspect <-- (fun s => match inspectAsync (path upload) s with
                        | inl e => (Rejected e, s)
                        | inr size => (Resolved size, s)
                        end) ;;
  match metadata upload with
  | None => M_reject "TypeError: Cannot set properties of undefined (setting 'size')"
  | Some md =>
      let size := match inspect with Some n => pretty n | None => "undefined" end in
      M_ret (mkResult (isChunkedUpload upload) (ready upload) (path upload)
                      (Some (<["size" := size]> md)))
  end.

End Receiver.

(* ------------------------------------------------------------------ *)
(** ** Client: state, requests and notifications *)

(** A header value as the client stores it: [chibi-uuid] is a string,
    [chibi-chunks-total] and [chibi-chunk-number] are numbers. *)
Inductive jsval := JNum (n : nat) | JStr (s : string).

Abbreviation headers_obj := (gmap string jsval).

(** The [uploader] record of [chibiUploader]. *)
Record Uploader := mkUploader {
  start : nat;
  chunkIndex : nat;
  totalChunks : nat;
  retriesCount : nat;
  offline : bool;
  paused : bool
}.

Definition set_retriesCount (n : nat) (u : Uploader) : Uploader :=
  mkUploader (start u) (chunkIndex u) (totalChunks u) n (offline u) (paused u).

Definition set_paused (b : bool) (u : Uploader) : Uploader :=
  mkUploader (start u) (chunkIndex u) (totalChunks u) (retriesCount u) (offline u) b.

(** The caller's callbacks, recorded in the order they are invoked. The
    [onProgress] percentage [Math.round((100 / totalChunks) * index)] is
    recorded through its inputs. *)
Inductive Event :=
| OnStart (uuid : string) (totalChunks : nat)
| OnProgress (uuid : string) (index totalChunks : nat)
| OnRetry (uuid : string) (chunk retriesLeft : nat)
| OnError (uuid : string) (msg : string)
| OnFinish (uuid : string).

(** The [method] option: ['POST'] (the default) or ['PUT']. *)
Inductive Method := POST | PUT.

(** The network requests issued: the single-chunk XHR, which sends the form
    (the post fields and the whole file) with ['POST'] and the bare file with
    ['PUT'], and carries the headers; or one [fetch] per chunk, with the
    headers, the post fields and the chunk. The method of a [fetch] is not
    recorded: its headers and body do not depend on it. *)
Inductive NetRequest :=
| Xhr (headers : headers_obj) (fields : list (string * string)) (body : bytes)
| XhrPut (headers : headers_obj) (body : bytes)
| Fetch (headers : headers_obj) (fields : list (string * string)) (body : bytes).


(** The mutable state one session sees. [headers] is the object bound by
    [const { headers = {} } = options]: the caller's [options.headers]
    itself when given, shared by every request of the session.
    [StopUploadsBecauseError] is the module-level flag; [timers] counts
    the [setTimeout(sendChunks)] calls made by [manageRetries]. *)
Record Client := mkClient {
  uploader : Uploader;
  headers : headers_obj;
  StopUploadsBecauseError : bool;
  events : list Event;
  network : list NetRequest;
  timers : nat
}.

Definition emit (e : Event) (st : Client) : Client :=
  mkClient (uploader st) (headers st) (StopUploadsBecauseError st)
           (events st ++ [e])%list (network st) (timers st).

(** The constants the closures of [chibiUploader] capture. *)
Record Config := mkConfig {
  cfg_uuid : string;
  cfg_file : bytes;
  cfg_postParams : option (list (string * string));
  cfg_chunkSize : nat;
  cfg_retries : nat;
  cfg_delayBeforeRetry : nat;
  cfg_maxParallelUploads : nat;
  cfg_method : Method
}.

(** Server responses as [actuallySendChunks] sees them: a status with the
    JSON body ([None]: [response.json()] fails; [Some None]: no [url]
    field), or a rejected [fetch]. *)
Inductive Response :=
| Status (code : nat) (body : option (option string))
| NetworkError.

Section Scheduler.

Variable cfg : Config.

Definition uuid := cfg_uuid cfg.
Definition retries := cfg_retries cfg.

(** [sendChunk]. The single-chunk branch returns [undefined]; the
    listeners it installs on the XHR are not modelled. It sends
    [method === 'PUT' ? file : form]. *)
Definition sendChunk (chunk : bytes) (index : nat) (st : Client) : bool * Client :=
  let u := uploader st in
  let fields :=
    if Nat.eqb index (totalChunks u) then default [] (cfg_postParams cfg) else [] in
  if Nat.eqb (totalChunks u) 1 then
    let req := match cfg_method cfg with
               | POST => Xhr (headers st) fields (cfg_file cfg)
               | PUT => XhrPut (headers st) (cfg_file cfg)
               end in
    (false, mkClient u (headers st) (StopUploadsBecauseError st) (events st)
                     (network st ++ [req])%list (timers st))
  else
    let headers' := <["chibi-chunk-number" := JNum index]> (headers st) in
    (true, mkClient u headers' (StopUploadsBecauseError st) (events st)
                    (network st ++ [Fetch headers' fields chunk])%list (timers st)).

(** [manageRetries]: [if (uploader.retriesCount++ < retries)]. *)
Definition manageRetries (index : nat) (st : Client) : Client :=
  let u := uploader st in
  let n := retriesCount u in
  let u' := set_retriesCount (S n) u in
  if Nat.ltb n retries then
    mkClient u' (headers st) (StopUploadsBecauseError st)
             (events st ++ [OnRetry uuid index (retries - S n)])%list
             (network st) (S (timers st))
  else
    mkClient u' (headers st) (StopUploadsBecauseError st)
             (events st ++ [OnError uuid ("An error occured uploading chunk " +:+ pretty index
                                          +:+ ". No more retries, stopping upload")])%list
             (network st) (timers st).

(** [actuallySendChunks] up to [await sendChunk(...)]: skip when the stop
    flag is set, else send. [true] when a response is awaited. *)
Definition asc_begin (chunk : bytes) (index : nat) (st : Client) : bool * Client :=
  if StopUploadsBecauseError st then (false, st) else sendChunk chunk index st.

Definition suspended (st : Client) : bool := paused (uploader st) || offline (uploader st).

(** [actuallySendChunks] after the response (or the rejection) arrives. *)
Definition asc_handle (index : nat) (resp : Response) (st : Client) : Client :=
  let u := uploader st in
  match resp with
  | NetworkError => if suspended st then st else manageRetries index st
  | Status code body =>
      if bool_decide (code ∈ [200; 201; 204]) then
        if Nat.ltb 1 (totalChunks u) then
          let st1 := emit (OnProgress uuid index (totalChunks u)) st in
          if Nat.eqb (totalChunks u) index then
            match body with
            | Some (Some _) => emit (OnFinish uuid) st1
            | Some None => emit (OnError uuid "No URL returned by the server") st1
            | None => emit (OnError uuid "There was a problem parsing the JSON response") st1
            end
          else st1
        else st
      else if bool_decide (code ∈ [408; 502; 503; 504]) then
        if suspended st then st else manageRetries index st
      else if Nat.eqb code 413 then
        let st1 := emit (OnError uuid "Chunks are too big. Stopping upload") st in
        mkClient (uploader st1) (headers st1) true (events st1) (network st1) (timers st1)
      else if suspended st then st
      else emit (OnError uuid ("Server responded with " +:+ pretty code +:+ ". Stopping upload")) st
  end.

(** The batches of [sendChunks]: [slices.reduce] pushes
    [slices.slice(i, i + maxParallelUploads)] for every [i] with
    [i % maxParallelUploads === 0] ([NaN] for [0]: no batch at all). *)
Definition chunk_batches {A} (p : nat) (l : list A) : list (list A) :=
  if Nat.eqb p 0 then []
  else map (fun i => firstn p (skipn i l))
           (List.filter (fun i => Nat.eqb (i mod p) 0) (seq 0 (length l))).

(** [resp] gives the server's answer to a chunk. *)
Variable resp : nat -> Response.

(** The order in which the event loop runs the steps of a batch. Member [k]
    (its position in the batch) runs
    [actuallySendChunks(await chunk.chunk.arrayBuffer(), chunk.index)]: it
    begins once its [arrayBuffer()] has resolved and, when a request went
    out, it is handled once the response has arrived; neither order is fixed
    by the code. [sched batch] lists the positions in the order their steps
    run: the first occurrence of [k] begins member [k], the second handles
    it. The batches of one [sendChunks] run are disjoint, so a function of
    the batch can give each of them its own order. *)
Variable sched : list ChunkDesc -> list nat.

(** One step of a batch. The members' progress is kept in a map from
    positions: absent before the member begins, [true] while its response
    is awaited, [false] once it has settled (skipped, or handled). *)
Definition batch_step (batch : list ChunkDesc) (acc : Client * gmap nat bool) (k : nat)
    : Client * gmap nat bool :=
  let '(st, members) := acc in
  match batch !! k with
  | None => acc
  | Some c =>
      match members !! k with
      | None => let '(sent, st') := asc_begin (chunk c) (index c) st in
                (st', <[k := sent]> members)
      | Some true => (asc_handle (index c) (resp (index c)) st, <[k := false]> members)
      | Some false => acc
      end
  end.

(** One batch, [await Promise.allSettled(sliceChunks.map(...))]. *)
Definition run_batch (st : Client) (batch : list ChunkDesc) : Client :=
  fst (foldl (batch_step batch) (st, ∅) (sched batch)).

(** [actuallySendChunks] run to completion. *)
Definition actuallySendChunks (chunk : bytes) (index : nat) (st : Client) : Client :=
  let '(b, st1) := asc_begin chunk index st in
  if b then asc_handle index (resp index) st1 else st1.

(** [sendChunks]; [chunks.slice(0, totalChunks - 1)] is [[]] when
    [totalChunks = 0] and [chunks.at(-1)] is [last chunks]. *)
Definition sendChunks (st : Client) : outcome unit * Client :=
  if suspended st then (Resolved tt, st) else
  let total := totalChunks (uploader st) in
  let chunks := getChunks (cfg_file cfg) (cfg_chunkSize cfg) total in
  let slices := firstn (total - 1) chunks in
  let lastChunk := last chunks in
  let st1 := foldl run_batch st (chunk_batches (cfg_maxParallelUploads cfg) slices) in
  match lastChunk with
  | None => (Rejected "TypeError: Cannot read properties of undefined (reading 'chunk')", st1)
  | Some lc => (Resolved tt, actuallySendChunks (chunk lc) total st1)
  end.

(** Every way the session's state can change once it has started: an
    [actuallySendChunks] call begins (from a batch, the last chunk, a
    retry timer or a resume), a response arrives, or [togglePause] flips
    [paused]. Calling [chibiUploader] again starts another session. *)
Inductive step : Client -> Client -> Prop :=
| step_begin chunk index st : step st (snd (asc_begin chunk index st))
| step_handle index r st : step st (asc_handle index r st)
| step_toggle st :
    step st (mkClient (set_paused (negb (paused (uploader st))) (uploader st))
                      (headers st) (StopUploadsBecauseError st) (events st)
                      (network st) (timers st)).

End Scheduler.

(** A transient outcome in [actuallySendChunks]: status 408, 502, 503 or
    504, or a rejected [fetch]. *)
Definition transient (r : Response) : bool :=
  match r with
  | NetworkError => true
  | Status code _ => bool_decide (code ∈ [408; 502; 503; 504])
  end.

(** The notifications of a run of transient failures [(chunk, response)]
    handled with the session's retry counter starting at [c]: the [k]-th
    one (counting from 0) is a retry while [c + k < retries], whatever its
    chunk, and an error afterwards. *)
Fixpoint retry_events (cfg : Config) (c : nat) (l : list (nat * Response)) : list Event :=
  match l with
  | [] => []
  | (i, _) :: l' =>
      (if Nat.ltb c (retries cfg)
       then OnRetry (uuid cfg) i (retries cfg - S c)
       else OnError (uuid cfg) ("An error occured uploading chunk " +:+ pretty i
                                +:+ ". No more retries, stopping upload"))
      :: retry_events cfg (S c) l'
  end.

(* ------------------------------------------------------------------ *)
(** ** [chibiUploader] *)

(** [UploaderOptions]; an omitted optional field is [None]. *)
Record UploaderOptions := mkUploaderOptions {
  opt_autoStart : option bool;
  opt_endpoint : string;
  opt_file_name : string;
  opt_file : bytes;
  opt_headers : option headers_obj;
  opt_postParams : option (list (string * string));
  opt_maxFileSize : option nat;
  opt_chunkSize : option nat;
  opt_retries : option nat;
  opt_delayBeforeRetry : option nat;
  opt_maxParallelUploads : option nat;
  opt_allowedExtensions : option (list string);
  opt_blockedExtensions : option (list string);
  opt_method : option Method
}.

(** [validateOptions]: with typed options only the endpoint test can fail
    ([options.chunkSize && ...] is falsy for [0]). *)
Definition validateOptions (o : UploaderOptions) : string + unit :=
  if String.eqb (opt_endpoint o) "" then inl "endpoint must be defined" else inr tt.

(** [file.name.split('.').pop()]: the text after the last dot. *)
Fixpoint split_pop (s : string) (acc : string) : string :=
  match s with
  | EmptyString => acc
  | String c s' => split_pop s' (if Ascii.eqb c "."%char then "" else acc +:+ String c "")
  end.

Definition validateFileExtension (name : string) (allowed blocked : list string)
    : string + unit :=
  let extension := split_pop name "" in
  if negb (Nat.eqb (length allowed) 0) && String.eqb extension ""
  then inl "File extension could not be determined"
  else if negb (Nat.eqb (length allowed) 0) && negb (bool_decide (extension ∈ allowed))
  then inl "File extension is not allowed"
  else if negb (Nat.eqb (length blocked) 0) && String.eqb extension ""
  then inl "File extension could not be determined"
  else if negb (Nat.eqb (length blocked) 0) && bool_decide (extension ∈ blocked)
  then inl "File extension is not allowed"
  else inr tt.

Definition validateSize (size maxFileSize : nat) : string + unit :=
  if Nat.ltb maxFileSize size then inl "File size is too big" else inr tt.

(** The three validations in the order of the [try] block. *)
Definition validate (o : UploaderOptions) : string + unit :=
  match validateOptions o with
  | inl e => inl e
  | inr _ =>
      match validateFileExtension (opt_file_name o) (default [] (opt_allowedExtensions o))
              (default [] (opt_blockedExtensions o)) with
      | inl e => inl e
      | inr _ => validateSize (length (opt_file o))
                   (match opt_maxFileSize o with Some m => m | None => 1000000000 end)
      end
  end.

(** [chibiUploader(options)] up to the end of the automatic start. [uuid]
    is the value of [uuidv4()]; [resp] the server's answers and [sched] the
    order of the steps of each batch. The returned state also holds the
    notifications sent so far. *)
Definition chibiUploader (o : UploaderOptions) (uuid : string) (resp : nat -> Response)
    (sched : list ChunkDesc -> list nat) : outcome unit * Client :=
  (* chunkSize = 9 * 9e7; matched, not [default], so the default is only
     built when it is used *)
  let chunkSize := match opt_chunkSize o with Some c => c | None => 810000000 end in
  let cfg := mkConfig uuid (opt_file o) (opt_postParams o) chunkSize
               (default 5 (opt_retries o)) (default 3 (opt_delayBeforeRetry o))
               (default 3 (opt_maxParallelUploads o)) (default POST (opt_method o)) in
  let total := total_chunks (length (opt_file o)) chunkSize in
  let hdrs := default ∅ (opt_headers o) in
  let st0 := mkClient (mkUploader 0 0 total 0 false false) hdrs false
                      [OnStart uuid total] [] 0 in
  match validate o with
  | inl e => (Resolved tt, emit (OnError uuid e) st0)
  | inr _ =>
      let hdrs' := if Nat.ltb 1 total
                   then <["chibi-chunks-total" := JNum total]> (<["chibi-uuid" := JStr uuid]> hdrs)
                   else hdrs in
      let st1 := mkClient (uploader st0) hdrs' false (events st0) [] 0 in
      if default true (opt_autoStart o) then sendChunks cfg resp sched st1
      else (Resolved tt, st1)
  end.

(* ------------------------------------------------------------------ *)
(** ** Sample inputs *)

(** A 250-byte file. *)
Definition data250 : bytes := repeat Byte.x2a 250.

(* ------------------------------------------------------------------ *)
(** ** Sessions *)

(** The headers a chunk request of the client carries when it reaches the
    server: [fetch] turns the numbers into their decimal strings. *)
Definition chunk_headers (uuid : string) (i n : nat) : headers_t :=
  <["chibi-uuid" := uuid]>
    (<["chibi-chunk-number" := pretty i]> (<["chibi-chunks-total" := pretty n]> ∅)).

(** Chunk [i] of [n] as busboy sees it: the form fields, then the file part,
    a [Blob] with no name of its own. *)
Definition chunk_request (uuid : string) (i n : nat) (fields : list (string * string))
    (body : bytes) : Request :=
  mkRequest (chunk_headers uuid i n) fields "blob" "application/octet-stream" body.

(** A server that answers its requests one after the other with
    [processBusboy] and stops at the first one that does not resolve. *)
Fixpoint serve (extname : string -> string) (fresh_uuid : string) (options : Options)
    (reqs : list Request) : M (list Result) :=
  match reqs with
  | [] => M_ret []
  | req :: reqs' =>
      r <-- processBusboy extname fresh_uuid options req ;;
      rs <-- serve extname fresh_uuid options reqs' ;;
      M_ret (r :: rs)
  end.

(** The state a chunk request leaves behind: the session's temporary
    directory exists and chunk file [i] holds the body. *)
Definition chunk_stored (options : Options) (uuid : string) (i : nat) (body : bytes)
    (s : fs) : fs :=
  let dirPath := dir_join (destination options) (uuid +:+ "_tmp") in
  fs_append (dirPath, pretty i) body (fs_create (dirPath, pretty i) (fs_mkdir dirPath s)).

(* ================================================================== *)
(** * Proofs *)

Open Scope list_scope.

(* ------------------------------------------------------------------ *)
(** ** File-system helpers *)

Lemma dir_join_ne (d name : string) : dir_join d name <> d.
Proof.
  unfold dir_join. induction d as [|a d IH]; simpl; [discriminate|].
  intros H. injection H as H. exact (IH H).
Qed.

Lemma fs_append_other (p q : fpath) (data : bytes) (s : fs) :
  p <> q -> files (fs_append p data s) !! q = files s !! q.
Proof. intros Hne. simpl. by rewrite lookup_insert_ne. Qed.

Lemma fs_append_app (p : fpath) (a b : bytes) (s : fs) :
  fs_append p b (fs_append p a s) = fs_append p (a ++ b) s.
Proof.
  unfold fs_append; simpl. rewrite lookup_insert_eq, insert_insert_eq. simpl.
  by rewrite app_assoc.
Qed.

Lemma fs_append_nil (p : fpath) (s : fs) :
  fs_append p [] s = mkFs (<[p := default [] (files s !! p)]> (files s)) (dirs s).
Proof. unfold fs_append. by rewrite app_nil_r. Qed.

Lemma fs_remove_dir_files (d : string) (s : fs) (p : fpath) :
  files (fs_remove_dir d s) !! p = if decide (p.1 = d) then None else files s !! p.
Proof.
  simpl. case_decide as Hd.
  - apply map_lookup_filter_None_2. right. intros x _ HP. exact (HP Hd).
  - destruct (files s !! p) as [x|] eqn:Hx.
    + by apply map_lookup_filter_Some_2.
    + apply map_lookup_filter_None_2. by left.
Qed.

(* ------------------------------------------------------------------ *)
(** ** [joinChunks] reads the chunk files in index order *)

Lemma pipeChunk_unfold fuel finalFilePath dirPath totalChunks chunkCount s :
  pipeChunk fuel finalFilePath dirPath totalChunks chunkCount s =
    match files s !! (dirPath, chunk_name chunkCount) with
    | None => (Rejected "Error reading chunk", s)
    | Some data =>
        let s1 := fs_append finalFilePath data s in
        if Nat.leb (S chunkCount) totalChunks then
          match fuel with
          | O => (Pending, s1)
          | S fuel' => pipeChunk fuel' finalFilePath dirPath totalChunks (S chunkCount) s1
          end
        else
          (Resolved (mkResult true (Some false) (Some finalFilePath) None),
           fs_remove_dir dirPath s1)
    end.
Proof. by destruct fuel. Qed.

Lemma pipeChunk_ok (finalFilePath : fpath) (dirPath : string) (totalChunks : nat)
    (f : nat -> bytes) :
  finalFilePath.1 <> dirPath ->
  forall k fuel c s,
    c + k = totalChunks -> 1 <= c -> k <= fuel ->
    (forall i, c <= i <= totalChunks -> files s !! (dirPath, chunk_name i) = Some (f i)) ->
    pipeChunk fuel finalFilePath dirPath totalChunks c s =
      (Resolved (mkResult true (Some false) (Some finalFilePath) None),
       fs_remove_dir dirPath (fs_append finalFilePath (concat (map f (seq c (S k)))) s)).
Proof.
  intros Hfd k. induction k as [|k IH]; intros fuel c s Hk Hc Hfuel Hfiles.
  - rewrite pipeChunk_unfold, (Hfiles c) by lia. cbv zeta.
    rewrite (proj2 (Nat.leb_gt _ _)) by lia. simpl. by rewrite app_nil_r.
  - destruct fuel as [|fuel]; [lia|]. rewrite pipeChunk_unfold, (Hfiles c) by lia.
    cbv zeta. rewrite (proj2 (Nat.leb_le _ _)) by lia.
    rewrite (IH fuel (S c)); [| lia | lia | lia |].
    + by rewrite fs_append_app.
    + intros i Hi. rewrite fs_append_other; [apply Hfiles; lia|].
      intros Heq. rewrite Heq in Hfd. simpl in Hfd. congruence.
Qed.

(** Shared by C1 and C10: the effect and the value of a successful join. *)
Lemma joinChunks_ok (finalFilePath : fpath) (dirPath : string) (totalChunks : nat)
    (s : fs) :
  1 <= totalChunks -> finalFilePath.1 <> dirPath ->
  (forall i, 1 <= i <= totalChunks -> is_Some (files s !! (dirPath, chunk_name i))) ->
  joinChunks finalFilePath dirPath totalChunks s =
    (Resolved (mkResult true (Some false) (Some finalFilePath) None),
     fs_remove_dir dirPath
       (mkFs (<[finalFilePath :=
                  concat (map (fun i => default [] (files s !! (dirPath, chunk_name i)))
                              (seq 1 totalChunks))]> (files s))
             (dirs s))).
Proof.
  intros Ht Hfd Hfiles. unfold joinChunks, M_bind, M_modify.
  set (f := fun i => default [] (files s !! (dirPath, chunk_name i))).
  rewrite (pipeChunk_ok finalFilePath dirPath totalChunks f Hfd (totalChunks - 1));
    [| lia | lia | lia |].
  - replace (S (totalChunks - 1)) with totalChunks by lia.
    unfold fs_append, fs_create; simpl. rewrite lookup_insert_eq, insert_insert_eq.
    reflexivity.
  - intros i Hi. unfold fs_create; cbn [files]. rewrite lookup_insert_ne.
    + destruct (Hfiles i Hi) as [x Hx]. unfold f; cbv beta. by rewrite Hx.
    + intros Heq. rewrite Heq in Hfd. simpl in Hfd. congruence.
Qed.

(* ------------------------------------------------------------------ *)
(** ** Chunk planning: the chunks tile the file *)

Lemma firstn_add_split {A} (a b : nat) (l : list A) :
  firstn (a + b) l = firstn a l ++ firstn b (skipn a l).
Proof.
  revert l. induction a as [|a IH]; intros [|x l]; simpl; try done.
  - by rewrite firstn_nil.
  - by rewrite IH.
Qed.

Lemma blob_slice_chunk (data : bytes) (chunkSize i : nat) :
  blob_slice data (chunkSize * i) (chunkSize * i + chunkSize)
  = firstn chunkSize (skipn (chunkSize * i) data).
Proof. unfold blob_slice. f_equal. lia. Qed.

Lemma concat_chunks (data : bytes) (chunkSize : nat) :
  forall n j,
    concat (map (fun i => blob_slice data (chunkSize * i) (chunkSize * i + chunkSize))
                (seq j n))
    = firstn (chunkSize * n) (skipn (chunkSize * j) data).
Proof.
  induction n as [|n IH]; intros j; simpl.
  - by rewrite Nat.mul_0_r.
  - rewrite IH, blob_slice_chunk.
    replace (chunkSize * S n) with (chunkSize + chunkSize * n) by lia.
    rewrite firstn_add_split, skipn_skipn.
    do 2 f_equal. f_equal. lia.
Qed.

Lemma total_chunks_cover (fileSize chunkSize : nat) :
  0 < chunkSize -> fileSize <= chunkSize * total_chunks fileSize chunkSize.
Proof.
  intros Hc. unfold total_chunks.
  pose proof (Nat.div_mod_eq (fileSize + chunkSize - 1) chunkSize).
  pose proof (Nat.mod_upper_bound (fileSize + chunkSize - 1) chunkSize).
  lia.
Qed.

Lemma total_chunks_pos (fileSize chunkSize : nat) :
  0 < chunkSize -> 0 < fileSize -> 1 <= total_chunks fileSize chunkSize.
Proof.
  intros Hc Hf. unfold total_chunks.
  apply Nat.div_le_lower_bound; lia.
Qed.

Lemma getChunks_index (file : bytes) (chunkSize n : nat) :
  map index (getChunks file chunkSize n) = seq 1 n.
Proof.
  unfold getChunks. rewrite map_map. simpl.
  rewrite <- seq_shift. apply map_ext. intros; lia.
Qed.

Lemma getChunks_concat (file : bytes) (chunkSize n : nat) :
  concat (map chunk (getChunks file chunkSize n))
  = firstn (chunkSize * n) file.
Proof.
  unfold getChunks. rewrite map_map. simpl.
  rewrite (concat_chunks file chunkSize n 0). by rewrite Nat.mul_0_r.
Qed.

Lemma store_chunks_lookup (dirPath : string) (l : list ChunkDesc) (s : fs) (c : ChunkDesc) :
  NoDup (map index l) -> In c l ->
  files (store_chunks dirPath l s) !! (dirPath, chunk_name (index c)) = Some (chunk c).
Proof.
  induction l as [|c' l IH]; simpl; [done|].
  intros Hnd [<-|Hin]; cbn [files].
  - apply lookup_insert_eq.
  - apply NoDup_cons in Hnd as [Hnin Hnd].
    rewrite lookup_insert_ne; [by apply IH|].
    intros Heq. injection Heq as Heq. unfold chunk_name in Heq.
    apply (inj pretty) in Heq. apply Hnin. rewrite Heq.
    apply list_elem_of_In, in_map, Hin.
Qed.

Lemma getChunks_lookup (dirPath : string) (file : bytes) (chunkSize n : nat) (s : fs) (i : nat) :
  1 <= i <= n ->
  files (store_chunks dirPath (getChunks file chunkSize n) s) !! (dirPath, chunk_name i)
  = Some (blob_slice file (chunkSize * (i - 1)) (chunkSize * (i - 1) + chunkSize)).
Proof.
  intros Hi.
  set (c := mkChunk i (blob_slice file (chunkSize * (i - 1)) (chunkSize * (i - 1) + chunkSize))).
  change i with (index c) at 1.
  apply store_chunks_lookup.
  - rewrite getChunks_index. apply NoDup_ListNoDup, seq_NoDup.
  - unfold getChunks. apply in_map_iff. exists (i - 1). split.
    + unfold c. f_equal. lia.
    + apply in_seq. lia.
Qed.

(* ------------------------------------------------------------------ *)
(** ** C1: reassembly in index order reproduces the file *)

(** C1. A file of [n > 0] bytes split by [getChunks] at a positive chunk
    size into chunk files [1..totalChunks] of the session's temporary
    directory is joined by [joinChunks] into the final artifact as the
    concatenation of chunk files [1], [2], ..., [totalChunks] in this
    order; that concatenation equals the original bytes, the join resolves,
    and the temporary directory and every file in it are gone. *)
Theorem joinChunks_roundtrip (data : bytes) (chunkSize : nat)
    (destination uuid ext : string) (s : fs) :
  0 < chunkSize -> data <> [] ->
  let totalChunks := total_chunks (length data) chunkSize in
  let dirPath := dir_join destination (uuid +:+ "_tmp") in
  let finalFilePath := (destination, uuid +:+ ext) in
  let s0 := store_chunks dirPath (getChunks data chunkSize totalChunks) s in
  exists s',
    joinChunks finalFilePath dirPath totalChunks s0
      = (Resolved (mkResult true (Some false) (Some finalFilePath) None), s') /\
    files s' !! finalFilePath
      = Some (concat (map (fun i => default [] (files s0 !! (dirPath, chunk_name i)))
                          (seq 1 totalChunks))) /\
    files s' !! finalFilePath = Some data /\
    (dirPath ∉ dirs s') /\
    (forall name, files s' !! (dirPath, name) = None).
Proof.
  intros Hc Hd totalChunks dirPath finalFilePath s0.
  assert (Hlen : 0 < length data) by (destruct data; [done | simpl; lia]).
  assert (Ht : 1 <= totalChunks) by (by apply total_chunks_pos).
  assert (Hfd : finalFilePath.1 <> dirPath).
  { simpl. intros Heq. symmetry in Heq. exact (dir_join_ne _ _ Heq). }
  assert (Hcat : concat (map (fun i => default [] (files s0 !! (dirPath, chunk_name i)))
                             (seq 1 totalChunks)) = data).
  { transitivity (concat (map chunk (getChunks data chunkSize totalChunks))).
    - f_equal. unfold getChunks. rewrite map_map. simpl.
      rewrite <- seq_shift, map_map. apply map_ext_in. intros i Hi.
      apply in_seq in Hi. unfold s0. rewrite getChunks_lookup by lia. simpl.
      f_equal; lia.
    - rewrite getChunks_concat. apply firstn_all2.
      by apply total_chunks_cover. }
  rewrite (joinChunks_ok finalFilePath dirPath totalChunks s0 Ht Hfd).
  - eexists. split; [reflexivity|].
    rewrite !fs_remove_dir_files. rewrite decide_False by done.
    cbn [files]. rewrite lookup_insert_eq. rewrite Hcat.
    split; [done|]. split; [done|]. split.
    + simpl. set_solver.
    + intros name. by rewrite fs_remove_dir_files, decide_True.
  - intros i Hi. unfold s0. rewrite getChunks_lookup by lia. by eexists.
Qed.

(* ------------------------------------------------------------------ *)
(** ** C2: the chunk plan *)

Lemma total_chunks_lower (fileSize chunkSize : nat) :
  0 < chunkSize -> 0 < fileSize ->
  chunkSize * (total_chunks fileSize chunkSize - 1) < fileSize.
Proof.
  intros Hc Hf. pose proof (total_chunks_pos fileSize chunkSize Hc Hf) as Hp.
  revert Hp. unfold total_chunks.
  pose proof (Nat.div_mod_eq (fileSize + chunkSize - 1) chunkSize).
  pose proof (Nat.mod_upper_bound (fileSize + chunkSize - 1) chunkSize).
  set (q := (fileSize + chunkSize - 1) / chunkSize) in *.
  set (r := (fileSize + chunkSize - 1) mod chunkSize) in *.
  intros Hp. rewrite Nat.mul_sub_distr_l, Nat.mul_1_r. lia.
Qed.

Lemma firstn_min_length {A} (k : nat) (l : list A) :
  firstn k l = firstn (Nat.min k (length l)) l.
Proof.
  revert k. induction l as [|x l IH]; intros [|k]; simpl; try done.
  by rewrite IH.
Qed.

(** C2. For a file of [fileSize > 0] bytes and [chunkSize > 0],
    [totalChunks] is the ceiling of [fileSize / chunkSize]; [getChunks]
    returns the descriptors [1..totalChunks] in order; descriptor [i + 1]
    holds exactly the bytes of the non-empty range
    [[i * chunkSize, min((i + 1) * chunkSize, fileSize))], at most
    [chunkSize] of them; the ranges start at 0, each ends where the next
    starts, the last ends at [fileSize], and the chunks concatenate back
    to the file. *)
Theorem getChunks_cover (data : bytes) (chunkSize : nat) :
  0 < chunkSize -> 0 < length data ->
  let fileSize := length data in
  let total := total_chunks fileSize chunkSize in
  let chunks := getChunks data chunkSize total in
  chunkSize * (total - 1) < fileSize <= chunkSize * total /\
  map index chunks = seq 1 total /\
  (forall i, i < total ->
     spec_start chunkSize i < spec_end fileSize chunkSize i /\
     spec_end fileSize chunkSize i - spec_start chunkSize i <= chunkSize /\
     nth_error chunks i =
       Some (mkChunk (S i) (firstn (spec_end fileSize chunkSize i - spec_start chunkSize i)
                                   (skipn (spec_start chunkSize i) data))) /\
     length (firstn (spec_end fileSize chunkSize i - spec_start chunkSize i)
                    (skipn (spec_start chunkSize i) data))
       = spec_end fileSize chunkSize i - spec_start chunkSize i) /\
  spec_start chunkSize 0 = 0 /\
  (forall i, S i < total -> spec_end fileSize chunkSize i = spec_start chunkSize (S i)) /\
  spec_end fileSize chunkSize (total - 1) = fileSize /\
  concat (map chunk chunks) = data.
Proof.
  intros Hc Hn fileSize total chunks.
  pose proof (total_chunks_lower fileSize chunkSize Hc Hn) as Hlo.
  pose proof (total_chunks_cover fileSize chunkSize Hc) as Hhi.
  pose proof (total_chunks_pos fileSize chunkSize Hc Hn) as Hpos.
  fold total in Hlo, Hhi, Hpos.
  assert (Hlt : forall i, i < total -> chunkSize * i < fileSize).
  { intros i Hi. eapply Nat.le_lt_trans; [|exact Hlo].
    apply Nat.mul_le_mono_l. lia. }
  unfold spec_start, spec_end.
  split; [lia|]. split; [apply getChunks_index|]. split; [|split; [lia|split; [|split]]].
  - intros i Hi. pose proof (Hlt i Hi).
    split; [lia|]. split; [lia|]. split.
    + unfold chunks, getChunks. rewrite nth_error_map, nth_error_seq.
      rewrite (proj2 (Nat.ltb_lt _ _) Hi). simpl. f_equal. f_equal; [lia|].
      unfold blob_slice. rewrite firstn_min_length, length_skipn.
      rewrite (firstn_min_length (_ - _)), length_skipn. f_equal. lia.
    + rewrite length_firstn, length_skipn. fold fileSize. lia.
  - intros i Hi. pose proof (Hlt (S i) Hi). rewrite Nat.mul_succ_r in *. lia.
  - replace (chunkSize * (total - 1) + chunkSize) with (chunkSize * total).
    + lia.
    + replace total with (S (total - 1)) at 1 by lia. rewrite Nat.mul_succ_r. lia.
  - unfold chunks. rewrite getChunks_concat. by apply firstn_all2.
Qed.

(* ------------------------------------------------------------------ *)
(** ** C3: an out-of-range chunk *)

(** C3 (evaluation at the failing input). Chunk 3 of a session declaring 2
    chunks: [handleFileWithChunks] rejects with ['Chunk is out of range'],
    yet the chunk file [3] exists in the session's temporary directory
    and holds the chunk's bytes; through [processBusboy] the rejection is
    raised inside busboy's ['close'] listener and the request's promise
    never settles. *)
Theorem handleFileWithChunks_out_of_range_persists (extname : string -> string) :
  let headers : headers_t :=
    <["chibi-uuid" := "67fe1028-8875-480a-8aab-1540230f5674"]>
      (<["chibi-chunk-number" := "3"]> (<["chibi-chunks-total" := "2"]> ∅)) in
  let dirPath := dir_join "tmp" "67fe1028-8875-480a-8aab-1540230f5674_tmp" in
  fst (handleFileWithChunks extname "tmp" headers [Byte.x01] ∅ (mkFs ∅ ∅))
    = Rejected "Chunk is out of range" /\
  files (snd (handleFileWithChunks extname "tmp" headers [Byte.x01] ∅ (mkFs ∅ ∅)))
    !! (dirPath, "3") = Some [Byte.x01] /\
  fst (processBusboy extname "0" (mkOptions "tmp" 1000 100 [])
         (mkRequest headers [] "blob" "application/octet-stream" [Byte.x01]) (mkFs ∅ ∅))
    = Pending /\
  files (snd (processBusboy extname "0" (mkOptions "tmp" 1000 100 [])
         (mkRequest headers [] "blob" "application/octet-stream" [Byte.x01]) (mkFs ∅ ∅)))
    !! (dirPath, "3") = Some [Byte.x01].
Proof. repeat split; vm_compute; reflexivity. Qed.

(* ------------------------------------------------------------------ *)
(** ** C6: [checkIfUuid] *)

Lemma match_at_length (pat : list cclass) (s : string) :
  match_at pat s = true -> length pat <= String.length s.
Proof.
  revert s. induction pat as [|k pat IH]; intros [|c s]; simpl; try done; [lia|].
  intros H. apply andb_prop in H as [_ H]. apply IH in H. lia.
Qed.

Lemma regex_test_short (pat : list cclass) (s : string) :
  String.length s < length pat -> regex_test pat s = false.
Proof.
  induction s as [|c s IH]; simpl; intros Hlt.
  - destruct pat; [simpl in Hlt; lia|done].
  - apply orb_false_intro; [|apply IH; lia].
    destruct (match_at pat (String c s)) eqn:E; [|done].
    apply match_at_length in E. simpl in E. lia.
Qed.

Lemma regex_test_exact (pat : list cclass) (s : string) :
  pat <> [] -> String.length s = length pat -> regex_test pat s = match_at pat s.
Proof.
  intros Hp Hl. destruct s as [|c s]; simpl.
  - done.
  - rewrite regex_test_short by (simpl in Hl; lia). apply orb_false_r.
Qed.

Lemma match_at_Forall2 (pat : list cclass) (s : string) :
  Forall2 (fun k c => cclass_ok k c = true) pat (list_ascii_of_string s) <->
  match_at pat s = true /\ String.length s = length pat.
Proof.
  revert s. induction pat as [|k pat IH]; intros [|c s]; simpl.
  - split; [done|]. intros _. constructor.
  - split; [intros H; inversion H|]. intros [_ H]; discriminate.
  - split; [intros H; inversion H|]. intros [H _]; discriminate.
  - rewrite Forall2_cons, IH, andb_true_iff. split.
    + intros (H1 & H2 & H3). auto.
    + intros ((H1 & H2) & H3). injection H3. auto.
Qed.

Lemma uuid_pattern_length : length uuid_pattern = 36.
Proof. reflexivity. Qed.

Lemma uuid_v4_lower_length (v : string) : uuid_v4_lower v -> String.length v = 36.
Proof. intros H. apply match_at_Forall2 in H as [_ H]. by rewrite H. Qed.

(** C6 (counterexample). A [chibi-uuid] header that is present with the
    empty value, whose length is 0 and not 36, does not fail validation:
    [checkIfUuid] returns [false] (single-shot mode). *)
Lemma checkIfUuid_empty_value :
  (<["chibi-uuid" := ""]> ∅ : headers_t) !! "chibi-uuid" = Some "" /\
  String.length "" <> 36 /\
  checkIfUuid (<["chibi-uuid" := ""]> ∅) = inr false.
Proof. repeat split; vm_compute; congruence. Qed.

(** C6 (amended). [checkIfUuid] returns [false] when [chibi-uuid] is
    absent or empty; for any other value it throws the length error when
    the length is not 36, throws the syntax error when the 36 characters
    are not a lower-case UUID v4, and returns [true] when they are. *)
Theorem checkIfUuid_spec (headers : headers_t) :
  (headers !! "chibi-uuid" = None -> checkIfUuid headers = inr false) /\
  (headers !! "chibi-uuid" = Some "" -> checkIfUuid headers = inr false) /\
  (forall v, headers !! "chibi-uuid" = Some v -> v <> "" ->
     (String.length v <> 36 ->
        checkIfUuid headers = inl "chibi-uuid does not meet the length criteria") /\
     (String.length v = 36 -> ~ uuid_v4_lower v ->
        checkIfUuid headers = inl "chibi-uuid is not a valid uuid") /\
     (uuid_v4_lower v -> checkIfUuid headers = inr true)).
Proof.
  unfold checkIfUuid. split; [intros ->; done|]. split; [intros ->; done|].
  intros v Hv Hne. rewrite Hv.
  assert (Heqb : String.eqb v "" = false) by (apply String.eqb_neq; done).
  rewrite Heqb. split; [|split].
  - intros Hl. by rewrite (proj2 (Nat.eqb_neq _ _) Hl).
  - intros Hl Hnot. rewrite (proj2 (Nat.eqb_eq _ _) Hl). simpl.
    rewrite regex_test_exact by (done || by rewrite uuid_pattern_length).
    destruct (match_at uuid_pattern v) eqn:E; [|done].
    exfalso. apply Hnot. apply match_at_Forall2. by rewrite uuid_pattern_length.
  - intros Hu. pose proof (uuid_v4_lower_length v Hu) as Hl.
    rewrite (proj2 (Nat.eqb_eq _ _) Hl). simpl.
    rewrite regex_test_exact by (done || by rewrite uuid_pattern_length).
    apply match_at_Forall2 in Hu as [-> _]. done.
Qed.

(* ------------------------------------------------------------------ *)
(** ** C10: the result of a completed join *)

Lemma pipeChunk_resolved (finalFilePath : fpath) (dirPath : string) (totalChunks : nat) :
  forall fuel chunkCount s r s',
    pipeChunk fuel finalFilePath dirPath totalChunks chunkCount s = (Resolved r, s') ->
    r = mkResult true (Some false) (Some finalFilePath) None.
Proof.
  induction fuel as [|fuel IH]; intros chunkCount s r s' H;
    rewrite pipeChunk_unfold in H;
    destruct (files s !! (dirPath, chunk_name chunkCount)); try discriminate;
    cbv zeta in H; destruct (Nat.leb (S chunkCount) totalChunks); try discriminate;
    try (injection H as <- _; reflexivity).
  eapply IH. exact H.
Qed.

(** C10. Whenever [joinChunks] resolves, its result is
    [{ isChunkedUpload: true, ready: false, path: finalFilePath }]: its
    [ready] and [isChunkedUpload] flags are those of the result of an
    intermediate chunk. *)
Theorem joinChunks_ready_false (finalFilePath : fpath) (dirPath : string)
    (totalChunks : nat) (s : fs) (r : Result) (s' : fs) :
  joinChunks finalFilePath dirPath totalChunks s = (Resolved r, s') ->
  ready r = Some false /\ ready r = ready intermediate_result /\
  isChunkedUpload r = isChunkedUpload intermediate_result /\
  path r = Some finalFilePath.
Proof.
  unfold joinChunks, M_bind, M_modify. intros H.
  apply pipeChunk_resolved in H. by subst r.
Qed.

(* ------------------------------------------------------------------ *)
(** ** C8: a non-final chunk through [processFile] *)

Lemma js_Number_digits (v : string) :
  all_digits v = true -> js_Number (Some v) = Some (decimal_value v).
Proof.
  intros H. unfold js_Number. rewrite H.
  destruct (String.eqb v "") eqn:E; [|done].
  unfold all_digits in H. rewrite E in H. discriminate.
Qed.

Lemma checkHeaders_digits (headers : headers_t) (sn st : string) :
  headers !! "chibi-chunk-number" = Some sn -> headers !! "chibi-chunks-total" = Some st ->
  all_digits sn = true -> all_digits st = true -> checkHeaders headers = true.
Proof.
  intros Hn Ht Dn Dt. unfold checkHeaders. rewrite Hn, Ht, Dn, Dt.
  unfold all_digits in Dn, Dt.
  apply andb_prop in Dn as [Dn _]. apply andb_prop in Dt as [Dt _].
  by rewrite Dn, Dt.
Qed.



(* ------------------------------------------------------------------ *)
(** ** Client helpers *)

Lemma suspended_manageRetries (cfg : Config) (index : nat) (st : Client) :
  suspended (manageRetries cfg index st) = suspended st.
Proof. unfold manageRetries. by destruct (Nat.ltb _ _). Qed.

Lemma asc_handle_transient (cfg : Config) (index : nat) (r : Response) (st : Client) :
  suspended st = false -> transient r = true ->
  asc_handle cfg index r st = manageRetries cfg index st.
Proof.
  intros Hs Ht. destruct r as [code body|]; simpl; [|by rewrite Hs].
  simpl in Ht. rewrite Ht, Hs.
  destruct (bool_decide (code ∈ [200; 201; 204])) eqn:E; [|done].
  apply bool_decide_eq_true in E, Ht. exfalso.
  apply list_elem_of_In in E, Ht. simpl in E, Ht. lia.
Qed.

(* ------------------------------------------------------------------ *)
(** ** C4: the retry budget *)

(** C4 (counterexample). With [retries = 1], a 503 on chunk 1 is retried,
    and then the first 503 on chunk 2 is already terminal: the budget is
    not per chunk. *)
Lemma retry_budget_shared :
  let cfg := mkConfig "u" [] None 1 1 3 3 POST in
  let st := mkClient (mkUploader 0 0 3 0 false false) ∅ false [] [] 0 in
  events (asc_handle cfg 2 (Status 503 None) (asc_handle cfg 1 (Status 503 None) st))
  = [OnRetry "u" 1 0;
     OnError "u" "An error occured uploading chunk 2. No more retries, stopping upload"].
Proof. vm_compute. reflexivity. Qed.

Lemma asc_handle_transient_suspended (cfg : Config) (index : nat) (r : Response) (st : Client) :
  suspended st = true -> transient r = true -> asc_handle cfg index r st = st.
Proof.
  intros Hs Ht. destruct r as [code body|]; simpl; [|by rewrite Hs].
  simpl in Ht. rewrite Ht, Hs.
  destruct (bool_decide (code ∈ [200; 201; 204])) eqn:E; [|done].
  apply bool_decide_eq_true in E, Ht. exfalso.
  apply list_elem_of_In in E, Ht. simpl in E, Ht. lia.
Qed.

Lemma handle_transients (cfg : Config) :
  forall (l : list (nat * Response)) (st : Client),
    suspended st = false -> Forall (fun p => transient p.2 = true) l ->
    let st' := foldl (fun st p => asc_handle cfg p.1 p.2 st) st l in
    retriesCount (uploader st') = retriesCount (uploader st) + length l /\
    events st' = events st ++ retry_events cfg (retriesCount (uploader st)) l /\
    timers st' = timers st + Nat.min (length l) (retries cfg - retriesCount (uploader st)) /\
    suspended st' = false.
Proof.
  induction l as [|[i r] l IH]; intros st Hs Hl; simpl.
  - rewrite !Nat.add_0_r, app_nil_r. auto.
  - apply Forall_cons in Hl as [Hr Hl]. simpl in Hr.
    rewrite (asc_handle_transient cfg i r st Hs Hr).
    destruct (IH (manageRetries cfg i st)) as (H1 & H2 & H3 & H4);
      [by rewrite suspended_manageRetries | done |].
    unfold manageRetries in *.
    destruct (Nat.ltb_spec (retriesCount (uploader st)) (retries cfg)) as [E|E].
    + replace (retries cfg - retriesCount (uploader st))
        with (S (retries cfg - S (retriesCount (uploader st)))) by lia.
      simpl in *; rewrite H1, H2, H3, <- app_assoc; split_and!; auto with lia.
    + replace (retries cfg - retriesCount (uploader st)) with 0 by lia.
      simpl in *; rewrite H1, H2, H3, <- app_assoc; split_and!; auto with lia.
Qed.

(** C4 (amended). The retry budget is one counter of the session,
    [uploader.retriesCount], shared by all chunks and never reset. While
    the upload is neither paused nor offline, any run of transient failures
    (408, 502, 503, 504 or a rejected [fetch]), whatever chunks they hit,
    raises it by one each; while the count before the failure is below
    [retries] the failure schedules a [sendChunks] re-run (a timer) and
    notifies a retry, after that it notifies an error and schedules
    nothing. While paused or offline a transient failure changes nothing.
    A success (200, 201, 204) touches neither the counter nor the retry
    timers. With [retries = 3], four 503 answers for one chunk give three
    [onRetry] (2, 1 and 0 retries left) and then one [onError]. *)
Theorem retry_budget_per_session (cfg : Config) :
  (forall (l : list (nat * Response)) (st : Client),
     suspended st = false -> Forall (fun p => transient p.2 = true) l ->
     let st' := foldl (fun st p => asc_handle cfg p.1 p.2 st) st l in
     retriesCount (uploader st') = retriesCount (uploader st) + length l /\
     events st' = events st ++ retry_events cfg (retriesCount (uploader st)) l /\
     timers st' = timers st + Nat.min (length l) (retries cfg - retriesCount (uploader st))) /\
  (forall index r st, suspended st = true -> transient r = true ->
     asc_handle cfg index r st = st) /\
  (forall index code body st, code ∈ [200; 201; 204] ->
     retriesCount (uploader (asc_handle cfg index (Status code body) st))
       = retriesCount (uploader st) /\
     timers (asc_handle cfg index (Status code body) st) = timers st) /\
  (forall index st, retries cfg = 3 -> retriesCount (uploader st) = 0 ->
     suspended st = false ->
     events (foldl (fun st p => asc_handle cfg p.1 p.2 st) st
                   (repeat (index, Status 503 None) 4))
     = events st ++ [OnRetry (uuid cfg) index 2; OnRetry (uuid cfg) index 1;
                     OnRetry (uuid cfg) index 0;
                     OnError (uuid cfg) ("An error occured uploading chunk " +:+ pretty index
                                         +:+ ". No more retries, stopping upload")]).
Proof.
  split; [|split; [|split]].
  - intros l st Hs Hl. destruct (handle_transients cfg l st Hs Hl) as (H1 & H2 & H3 & _). auto.
  - intros index r st Hs Hr. exact (asc_handle_transient_suspended cfg index r st Hs Hr).
  - intros index code body st Hc. unfold asc_handle.
    rewrite (bool_decide_eq_true_2 _ Hc).
    destruct (Nat.ltb 1 _); [|done].
    destruct (Nat.eqb _ index); [destruct body as [[|]|]|]; done.
  - intros index st Hr Hc Hs.
    destruct (handle_transients cfg (repeat (index, Status 503 None) 4) st Hs)
      as (_ & H & _ & _).
    + repeat constructor.
    + rewrite H, Hc. simpl. rewrite Hr. reflexivity.
Qed.

(* ------------------------------------------------------------------ *)
(** ** C5: the stop flag *)

Lemma asc_handle_frame (cfg : Config) (index : nat) (r : Response) (st : Client) :
  network (asc_handle cfg index r st) = network st /\
  headers (asc_handle cfg index r st) = headers st /\
  (StopUploadsBecauseError st = true ->
   StopUploadsBecauseError (asc_handle cfg index r st) = true).
Proof.
  unfold asc_handle, manageRetries, emit.
  destruct r; repeat case_match; simpl; auto.
Qed.

Lemma step_stopped (cfg : Config) (st st' : Client) :
  StopUploadsBecauseError st = true -> step cfg st st' ->
  StopUploadsBecauseError st' = true /\ network st' = network st /\
  headers st' = headers st.
Proof.
  intros Hf Hs. inversion Hs as [chunk index st0|index r st0|st0]; subst.
  - unfold asc_begin. rewrite Hf. simpl. auto.
  - destruct (asc_handle_frame cfg index r st) as (H1 & H2 & H3). auto.
  - simpl. auto.
Qed.

(** C5 (counterexample). Three one-byte chunks in one batch, every
    answer 413: chunks 1 and 2 are both sent before the first answer is
    handled (their [arrayBuffer()] promises resolve before the first
    response arrives), so the session reports two [onError] notifications
    (and sends two requests; the last chunk is skipped). *)
Lemma too_big_reported_twice :
  let o := mkUploaderOptions None "/api/upload" "a.bin" [Byte.x01; Byte.x02; Byte.x03]
             None None (Some 1000) (Some 1) None None (Some 3) None None None in
  let r := chibiUploader o "u" (fun _ => Status 413 None)
             (fun b => seq 0 (length b) ++ seq 0 (length b)) in
  fst r = Resolved tt /\
  events (snd r) = [OnStart "u" 3;
                    OnError "u" "Chunks are too big. Stopping upload";
                    OnError "u" "Chunks are too big. Stopping upload"] /\
  length (network (snd r)) = 2.
Proof. vm_compute. repeat split; reflexivity. Qed.

(** C5 (amended). A 413 answer emits one [onError], sets the process-wide
    flag [StopUploadsBecauseError] and schedules no retry (the uploader
    record, and so [retriesCount], and the retry timers are unchanged).
    Once the flag is set, [actuallySendChunks] returns before sending, and
    whatever happens next in the session (calls beginning, answers to
    requests already in flight, pause toggles) the flag stays set and no
    request is added. Answers to requests sent before the flag was set
    are still handled, so each further 413 adds another [onError]. *)
Theorem stop_flag_after_too_big (cfg : Config) :
  (forall index body st,
     asc_handle cfg index (Status 413 body) st
     = mkClient (uploader st) (headers st) true
                (events st ++ [OnError (uuid cfg) "Chunks are too big. Stopping upload"])
                (network st) (timers st)) /\
  (forall chunk index st, StopUploadsBecauseError st = true ->
     asc_begin cfg chunk index st = (false, st)) /\
  (forall st st', StopUploadsBecauseError st = true -> rtc (step cfg) st st' ->
     StopUploadsBecauseError st' = true /\ network st' = network st /\
     headers st' = headers st).
Proof.
  split; [|split].
  - intros index body st. reflexivity.
  - intros chunk index st Hf. unfold asc_begin. by rewrite Hf.
  - intros st st' Hf Hr. induction Hr as [st|st st1 st' Hs Hr IH]; [auto|].
    destruct (step_stopped cfg st st1 Hf Hs) as (H1 & H2 & H3).
    destruct (IH H1) as (H4 & H5 & H6). split; [done|]. split; congruence.
Qed.

(* ------------------------------------------------------------------ *)
(** ** C7: what [sendChunk] changes *)



(* ------------------------------------------------------------------ *)
(** ** C9: empty files *)

Lemma total_chunks_empty (chunkSize : nat) : total_chunks 0 chunkSize = 0.
Proof.
  unfold total_chunks. destruct chunkSize as [|c]; [reflexivity|].
  apply Nat.div_small. lia.
Qed.

Lemma chunk_batches_nil {A} (p : nat) : chunk_batches (A:=A) p [] = [].
Proof. unfold chunk_batches. by destruct (Nat.eqb p 0). Qed.

Lemma sendChunks_no_chunks (cfg : Config) (resp : nat -> Response)
    (sched : list ChunkDesc -> list nat) (st : Client) :
  totalChunks (uploader st) = 0 -> suspended st = false ->
  sendChunks cfg resp sched st
  = (Rejected "TypeError: Cannot read properties of undefined (reading 'chunk')", st).
Proof.
  intros Ht Hs. unfold sendChunks. rewrite Hs, Ht. simpl.
  by rewrite chunk_batches_nil.
Qed.

(** C9. For an empty file and a positive chunk size [totalChunks] is [0],
    [getChunks] gives no chunk, and a running [sendChunks] with no chunk
    rejects with the [TypeError] of [lastChunk!.chunk] without sending
    anything or notifying. So [chibiUploader] on an empty file that passes
    validation, with [autoStart] and a positive (or default) chunk size,
    rejects after [onStart(uuid, 0)], with no request and no [onError],
    whatever the order of the batches' steps. *)
Theorem empty_file_rejects :
  (forall chunkSize, 0 < chunkSize -> total_chunks 0 chunkSize = 0) /\
  (forall (file : bytes) chunkSize, getChunks file chunkSize 0 = []) /\
  (forall cfg resp sched st, totalChunks (uploader st) = 0 -> suspended st = false ->
     sendChunks cfg resp sched st
     = (Rejected "TypeError: Cannot read properties of undefined (reading 'chunk')", st)) /\
  (forall o uuid resp sched, opt_file o = [] -> validate o = inr tt ->
     opt_autoStart o <> Some false -> opt_chunkSize o <> Some 0 ->
     fst (chibiUploader o uuid resp sched)
       = Rejected "TypeError: Cannot read properties of undefined (reading 'chunk')" /\
     events (snd (chibiUploader o uuid resp sched)) = [OnStart uuid 0] /\
     network (snd (chibiUploader o uuid resp sched)) = []).
Proof.
  split; [intros chunkSize _; apply total_chunks_empty|]. split; [reflexivity|].
  split; [exact sendChunks_no_chunks|].
  intros o uuid resp sched Hf Hv Ha _. unfold chibiUploader.
  rewrite Hf. cbn [length]. rewrite total_chunks_empty, Hv. cbv zeta.
  replace (default true (opt_autoStart o)) with true
    by (destruct (opt_autoStart o) as [[|]|] eqn:E; simpl; congruence).
  rewrite sendChunks_no_chunks by reflexivity. simpl. auto.
Qed.

(* ------------------------------------------------------------------ *)
(** * Instances at concrete inputs *)

(** C1 at a 250-byte file cut in chunks of 100 under [uploads/u_tmp]. *)
Lemma joinChunks_roundtrip_witness :
  0 < 100 /\ data250 <> [] /\
  exists s',
    joinChunks ("uploads", "u" +:+ ".bin") (dir_join "uploads" ("u" +:+ "_tmp"))
      (total_chunks (length data250) 100)
      (store_chunks (dir_join "uploads" ("u" +:+ "_tmp"))
         (getChunks data250 100 (total_chunks (length data250) 100)) (mkFs ∅ ∅))
    = (Resolved (mkResult true (Some false) (Some ("uploads", "u" +:+ ".bin")) None), s') /\
    files s' !! ("uploads", "u" +:+ ".bin") = Some data250.
Proof.
  split; [lia|]. split; [vm_compute; discriminate|].
  destruct (joinChunks_roundtrip data250 100 "uploads" "u" ".bin" (mkFs ∅ ∅))
    as (s' & H1 & _ & H3 & _); [lia | vm_compute; discriminate |].
  exists s'. split; assumption.
Defined.

(** C2 at the same file: the chunks put back together give the file, and
    their lengths are 100, 100 and 50. *)
Lemma getChunks_cover_witness :
  0 < 100 /\ 0 < length data250 /\
  concat (map chunk (getChunks data250 100 (total_chunks (length data250) 100))) = data250 /\
  map (fun c => length (chunk c)) (getChunks data250 100 (total_chunks (length data250) 100))
    = [100; 100; 50].
Proof.
  split; [lia|]. split; [vm_compute; lia|].
  destruct (getChunks_cover data250 100) as (_ & _ & _ & _ & _ & _ & H);
    [lia | vm_compute; lia |].
  split; [exact H | vm_compute; reflexivity].
Defined.

(** C6 at the UUID of the module's tests, and the same UUID in upper case. *)
Lemma checkIfUuid_spec_witness :
  checkIfUuid (<["chibi-uuid" := "67fe1028-8875-480a-8aab-1540230f5674"]> ∅) = inr true /\
  checkIfUuid (<["chibi-uuid" := "67FE1028-8875-480A-8AAB-1540230F5674"]> ∅)
    = inl "chibi-uuid is not a valid uuid".
Proof.
  split; [|vm_compute; reflexivity].
  assert (Hl : (<["chibi-uuid" := "67fe1028-8875-480a-8aab-1540230f5674"]> ∅ : headers_t)
                 !! "chibi-uuid" = Some "67fe1028-8875-480a-8aab-1540230f5674")
    by (vm_compute; reflexivity).
  apply (proj2 (proj2 (proj2 (proj2 (checkIfUuid_spec _))
           "67fe1028-8875-480a-8aab-1540230f5674" Hl ltac:(discriminate))));
  vm_compute; repeat constructor.
Defined.

(** C4 with [retries = 3]: four 503 answers for chunk 1 schedule three
    re-runs and notify three retries and one error; while paused, a 503
    changes nothing. *)
Lemma retry_budget_per_session_witness :
  timers (foldl (fun st p => asc_handle (mkConfig "u" [] None 1 3 3 3 POST) p.1 p.2 st)
                (mkClient (mkUploader 0 0 3 0 false false) ∅ false [] [] 0)
                (repeat (1, Status 503 None) 4))
  = 0 + Nat.min 4 (3 - 0) /\
  events (foldl (fun st p => asc_handle (mkConfig "u" [] None 1 3 3 3 POST) p.1 p.2 st)
                (mkClient (mkUploader 0 0 3 0 false false) ∅ false [] [] 0)
                (repeat (1, Status 503 None) 4))
  = [] ++ [OnRetry "u" 1 2; OnRetry "u" 1 1; OnRetry "u" 1 0;
           OnError "u" ("An error occured uploading chunk " +:+ pretty 1
                        +:+ ". No more retries, stopping upload")] /\
  asc_handle (mkConfig "u" [] None 1 3 3 3 POST) 1 (Status 503 None)
    (mkClient (mkUploader 0 0 3 0 false true) ∅ false [] [] 0)
  = mkClient (mkUploader 0 0 3 0 false true) ∅ false [] [] 0.
Proof.
  split_and!.
  - apply (proj1 (retry_budget_per_session (mkConfig "u" [] None 1 3 3 3 POST))
             (repeat (1, Status 503 None) 4) (mkClient (mkUploader 0 0 3 0 false false) ∅ false [] [] 0));
      [reflexivity | repeat constructor].
  - apply (proj2 (proj2 (proj2 (retry_budget_per_session (mkConfig "u" [] None 1 3 3 3 POST)))));
      reflexivity.
  - apply (proj1 (proj2 (retry_budget_per_session (mkConfig "u" [] None 1 3 3 3 POST))));
      reflexivity.
Defined.

(** C5 once the flag is set: one more 413 answer keeps it set and sends
    nothing. *)
Lemma stop_flag_after_too_big_witness :
  let st := mkClient (mkUploader 0 0 3 0 false false) ∅ true [] [Fetch ∅ [] [Byte.x01]] 0 in
  let st' := asc_handle (mkConfig "u" [] None 1 3 3 3 POST) 2 (Status 413 None) st in
  StopUploadsBecauseError st' = true /\ network st' = network st /\ headers st' = headers st.
Proof.
  intros st st'.
  apply (proj2 (proj2 (stop_flag_after_too_big (mkConfig "u" [] None 1 3 3 3 POST))));
    [reflexivity | apply rtc_once, step_handle].
Defined.


(** C9 at an empty file with chunks of 100 bytes. *)
Lemma empty_file_rejects_witness :
  let o := mkUploaderOptions None "/api/upload" "empty.txt" [] None None (Some 1000)
             (Some 100) None None None None None None in
  let sched := fun b : list ChunkDesc => seq 0 (length b) ++ seq 0 (length b) in
  total_chunks 0 100 = 0 /\
  fst (chibiUploader o "u" (fun _ => Status 200 None) sched)
    = Rejected "TypeError: Cannot read properties of undefined (reading 'chunk')" /\
  events (snd (chibiUploader o "u" (fun _ => Status 200 None) sched)) = [OnStart "u" 0] /\
  network (snd (chibiUploader o "u" (fun _ => Status 200 None) sched)) = [].
Proof.
  intros o sched. split; [apply (proj1 empty_file_rejects); lia|].
  apply (proj2 (proj2 (proj2 empty_file_rejects)) o "u" (fun _ => Status 200 None) sched);
    [reflexivity | vm_compute; reflexivity | discriminate | discriminate].
Defined.

(** C10 at a one-chunk upload. *)
Lemma joinChunks_ready_false_witness :
  let s := mkFs (<[("d", "1") := [Byte.x01]]> ∅) {["d"; "f"]} in
  let r := mkResult true (Some false) (Some ("f", "x")) None in
  joinChunks ("f", "x") "d" 1 s = (Resolved r, snd (joinChunks ("f", "x") "d" 1 s)) /\
  ready r = Some false /\ ready r = ready intermediate_result /\
  isChunkedUpload r = isChunkedUpload intermediate_result /\ path r = Some ("f", "x").
Proof.
  intros s r.
  assert (H : joinChunks ("f", "x") "d" 1 s = (Resolved r, snd (joinChunks ("f", "x") "d" 1 s)))
    by (vm_compute; reflexivity).
  split; [exact H | exact (joinChunks_ready_false ("f", "x") "d" 1 s r _ H)].
Defined.

(* ================================================================== *)
(** * Further properties *)

Lemma pretty_N_char_digit (d : N) :
  (d < 10)%N ->
  is_digit (pretty_N_char d) = true /\
  Ascii.nat_of_ascii (pretty_N_char d) - 48 = N.to_nat d.
Proof.
  intros Hd.
  assert (d = 0 \/ d = 1 \/ d = 2 \/ d = 3 \/ d = 4 \/ d = 5 \/ d = 6 \/ d = 7
          \/ d = 8 \/ d = 9)%N as Hc by lia.
  repeat destruct Hc as [->|Hc]; [..|subst d]; split; reflexivity.
Qed.

Lemma pretty_N_go_digits (x : N) :
  forall s, exists ds,
    list_ascii_of_string (pretty_N_go x s) = ds ++ list_ascii_of_string s /\
    forallb is_digit ds = true /\
    fold_left (fun acc c => 10 * acc + (Ascii.nat_of_ascii c - 48)) ds 0 = N.to_nat x /\
    (x <> 0%N -> ds <> []).
Proof.
  induction (N.lt_wf_0 x) as [x _ IH]; intros s.
  destruct (decide (x = 0%N)) as [->|Hx].
  - exists []. rewrite pretty_N_go_0. split_and!; try done.
  - rewrite pretty_N_go_step by lia.
    destruct (IH (x `div` 10)%N ltac:(apply N.div_lt; lia)
                 (String (pretty_N_char (x `mod` 10)) s)) as (ds & H1 & H2 & H3 & _).
    destruct (pretty_N_char_digit (x `mod` 10)%N ltac:(apply N.mod_lt; lia)) as [D V].
    exists (ds ++ [pretty_N_char (x `mod` 10)]). rewrite H1. cbn [list_ascii_of_string].
    rewrite <- app_assoc. split; [reflexivity|].
    rewrite forallb_app, H2, fold_left_app, H3. cbn [forallb fold_left]. rewrite D, V.
    split; [reflexivity|]. split; [|intros _; destruct ds; discriminate].
    pose proof (N.div_mod x 10 ltac:(lia)). lia.
Qed.

Lemma pretty_nat_digits (n : nat) :
  all_digits (pretty n) = true /\ decimal_value (pretty n) = n.
Proof.
  change (pretty n) with (pretty (N.of_nat n)). unfold pretty, pretty_N.
  destruct (decide (N.of_nat n = 0%N)) as [H|H].
  - assert (n = 0) as -> by lia. split; reflexivity.
  - destruct (pretty_N_go_digits (N.of_nat n) "") as (ds & H1 & H2 & H3 & H4).
    simpl in H1. rewrite app_nil_r in H1.
    unfold all_digits, decimal_value. rewrite H1, H2, H3, Nat2N.id.
    split; [|reflexivity].
    destruct (String.eqb _ "") eqn:E; [|reflexivity].
    apply String.eqb_eq in E. rewrite E in H1. simpl in H1.
    exfalso. apply (H4 H). by destruct ds.
Qed.

Lemma checkIfUuid_valid (headers : headers_t) (v : string) :
  headers !! "chibi-uuid" = Some v -> uuid_v4_lower v -> checkIfUuid headers = inr true.
Proof.
  intros Hv Hu. unfold checkIfUuid. rewrite Hv.
  pose proof (uuid_v4_lower_length v Hu) as Hl.
  assert (Heqb : String.eqb v "" = false)
    by (apply String.eqb_neq; intros ->; discriminate).
  rewrite Heqb, (proj2 (Nat.eqb_eq _ _) Hl). simpl.
  rewrite regex_test_exact by (done || by rewrite uuid_pattern_length).
  apply match_at_Forall2 in Hu as [-> _]. done.
Qed.

Lemma chunk_headers_lookup (uuid : string) (i n : nat) :
  chunk_headers uuid i n !! "chibi-uuid" = Some uuid /\
  chunk_headers uuid i n !! "chibi-chunk-number" = Some (pretty i) /\
  chunk_headers uuid i n !! "chibi-chunks-total" = Some (pretty n).
Proof.
  unfold chunk_headers. split_and!.
  - by rewrite lookup_insert_eq.
  - rewrite lookup_insert_ne by discriminate. by rewrite lookup_insert_eq.
  - rewrite !lookup_insert_ne by discriminate. by rewrite lookup_insert_eq.
Qed.

Lemma js_Number_pretty (n : nat) : js_Number (Some (pretty n)) = Some n.
Proof.
  destruct (pretty_nat_digits n) as [D V]. by rewrite js_Number_digits, V.
Qed.

Lemma processBusboy_chunk (extname : string -> string) (fresh_uuid : string)
    (options : Options) (uuid : string) (i n : nat) (fields : list (string * string))
    (body : bytes) (s : fs) :
  uuid_v4_lower uuid -> i <= n -> maxChunkSize options * n <= maxFileSize options ->
  length body < maxChunkSize options + 1024 ->
  processBusboy extname fresh_uuid options (chunk_request uuid i n fields body) s =
  if Nat.eqb i n then
    match busboy_metadata (chunk_request uuid i n fields body) !! "name" with
    | Some name =>
        match joinChunks (destination options, uuid +:+ extname name)
                (dir_join (destination options) (uuid +:+ "_tmp")) n
                (chunk_stored options uuid i body s) with
        | (Resolved r, s') =>
            (Resolved (mkResult (isChunkedUpload r) (ready r) (path r)
                        (Some (busboy_metadata (chunk_request uuid i n fields body)))), s')
        | (_, s') => (Pending, s')
        end
    | None => (Pending, chunk_stored options uuid i body s)
    end
  else (Resolved intermediate_result, chunk_stored options uuid i body s).
Proof.
  intros Hu Hin Hsize Hlen.
  destruct (chunk_headers_lookup uuid i n) as (Hv & Hi & Hn).
  destruct (pretty_nat_digits i) as [Di _]. destruct (pretty_nat_digits n) as [Dn _].
  unfold processBusboy, chunk_request. cbn [req_headers req_file].
  fold (chunk_request uuid i n fields body).
  rewrite (checkIfUuid_valid _ uuid Hv Hu).
  rewrite (checkHeaders_digits _ _ _ Hi Hn Di Dn). cbn [andb negb].
  unfold isBiggerThanMaxSize. rewrite Hn, js_Number_pretty.
  rewrite (proj2 (Nat.ltb_ge _ _) Hsize).
  rewrite (proj2 (Nat.leb_gt _ _) Hlen).
  rewrite (firstn_all2 body) by lia.
  unfold M_bind, M_unhandled, handleFileWithChunks.
  rewrite Hv, Hi, Hn, !js_Number_pretty. cbn [default]. unfold id.
  rewrite (proj2 (Nat.ltb_ge _ _) Hin).
  destruct (Nat.eqb i n) eqn:E.
  - apply Nat.eqb_eq in E. subst i. fold (chunk_stored options uuid n body s).
    destruct (busboy_metadata _ !! "name"); [|reflexivity].
    unfold M_ret. destruct (joinChunks _ _ _ _) as [[r|e|] s']; reflexivity.
  - reflexivity.
Qed.

Lemma chunk_stored_files (options : Options) (uuid : string) (i : nat) (body : bytes) (s : fs) :
  files (chunk_stored options uuid i body s)
  = <[(dir_join (destination options) (uuid +:+ "_tmp"), pretty i) := body]> (files s).
Proof.
  unfold chunk_stored, fs_append, fs_create, fs_mkdir. cbn [files].
  by rewrite lookup_insert_eq, insert_insert_eq.
Qed.

Lemma chunk_stored_dirs (options : Options) (uuid : string) (i : nat) (body : bytes) (s : fs) :
  dirs (chunk_stored options uuid i body s)
  = {[dir_join (destination options) (uuid +:+ "_tmp")]} ∪ dirs s.
Proof. reflexivity. Qed.

Lemma serve_app (extname : string -> string) (fresh_uuid : string) (options : Options)
    (xs ys : list Request) (s : fs) :
  serve extname fresh_uuid options (xs ++ ys) s =
  match serve extname fresh_uuid options xs s with
  | (Resolved rs, s1) =>
      match serve extname fresh_uuid options ys s1 with
      | (Resolved rs', s2) => (Resolved (rs ++ rs'), s2)
      | (Rejected e, s2) => (Rejected e, s2)
      | (Pending, s2) => (Pending, s2)
      end
  | (Rejected e, s1) => (Rejected e, s1)
  | (Pending, s1) => (Pending, s1)
  end.
Proof.
  revert s. induction xs as [|x xs IH]; intros s.
  - cbn [app serve]. unfold M_ret.
    destruct (serve extname fresh_uuid options ys s) as [[rs|e|] s2]; reflexivity.
  - rewrite <- app_comm_cons. cbn [serve]. unfold M_bind, M_ret.
    destruct (processBusboy extname fresh_uuid options x s) as [[r|e|] s1]; try reflexivity.
    rewrite IH.
    destruct (serve extname fresh_uuid options xs s1) as [[rs|e|] s2]; try reflexivity.
    destruct (serve extname fresh_uuid options ys s2) as [[rs'|e|] s3]; reflexivity.
Qed.

Lemma serve_nonfinal (extname : string -> string) (fresh_uuid : string) (options : Options)
    (uuid : string) (n : nat) :
  uuid_v4_lower uuid -> maxChunkSize options * n <= maxFileSize options ->
  let dirPath := dir_join (destination options) (uuid +:+ "_tmp") in
  forall (l : list bytes) j s,
    j + length l < n -> Forall (fun b => length b < maxChunkSize options + 1024) l ->
    exists s',
      serve extname fresh_uuid options
        (zip_with (fun k b => chunk_request uuid k n [] b) (seq (S j) (length l)) l) s
      = (Resolved (repeat intermediate_result (length l)), s') /\
      (forall k, k < length l -> files s' !! (dirPath, pretty (S j + k)) = l !! k) /\
      (forall p, (forall k, k < length l -> p <> (dirPath, pretty (S j + k))) ->
                 files s' !! p = files s !! p) /\
      dirs s' ⊆ {[dirPath]} ∪ dirs s.
Proof.
  intros Hu Hsize dirPath l. induction l as [|b l IH]; intros j s Hj Hl.
  - exists s. split_and!; try done; [intros k Hk; simpl in Hk; lia | set_solver].
  - apply Forall_cons in Hl as [Hb Hl]. cbn [length seq zip_with serve].
    unfold M_bind at 1.
    rewrite processBusboy_chunk by (done || simpl in Hj; lia).
    rewrite (proj2 (Nat.eqb_neq _ _)) by (simpl in Hj; lia).
    destruct (IH (S j) (chunk_stored options uuid (S j) b s)) as (s' & H1 & H2 & H3 & H4);
      [simpl in Hj; lia | done |].
    exists s'. unfold M_bind. rewrite H1. split_and!.
    + reflexivity.
    + intros [|k] Hk; simpl.
      * rewrite Nat.add_0_r, H3.
        -- rewrite chunk_stored_files. by rewrite lookup_insert_eq.
        -- intros k Hk' [= Heq]. apply (inj pretty) in Heq. lia.
      * replace (S (j + S k)) with (S (S j) + k) by lia. apply H2. simpl in Hk. lia.
    + intros p Hp. rewrite H3.
      * rewrite chunk_stored_files, lookup_insert_ne; [done|].
        intros <-. apply (Hp 0); [simpl; lia|]. by rewrite Nat.add_0_r.
      * intros k Hk. replace (S (S j) + k) with (S j + S k) by lia. apply Hp. simpl. lia.
    + rewrite H4, chunk_stored_dirs. set_solver.
Qed.

Lemma map_seq_list {A} (g : nat -> A) (l : list A) (j : nat) :
  (forall k, k < length l -> Some (g (j + k)) = l !! k) -> map g (seq j (length l)) = l.
Proof.
  intros H. apply list_eq. intros k. rewrite list_lookup_fmap.
  destruct (decide (k < length l)) as [Hk|Hk].
  - rewrite lookup_seq_lt by done. simpl. by apply H.
  - rewrite lookup_seq_ge by lia. simpl. symmetry. apply lookup_ge_None_2. lia.
Qed.

(** A chunked upload served request after request: chunks [1 .. n-1]
    without fields, then chunk [n] with the fields (among them [name]).
    Every request resolves (the first [n-1] with the intermediate result),
    the final file holds the chunks' bytes in order, the temporary
    directory and its chunk files are gone, and no other file changes. *)
Theorem chunked_session_assembles (extname : string -> string) (fresh_uuid : string)
    (options : Options) (uuid : string) (init : list bytes) (lastb : bytes)
    (fields : list (string * string)) (name : string) (s : fs) :
  uuid_v4_lower uuid ->
  maxChunkSize options * S (length init) <= maxFileSize options ->
  Forall (fun b => length b < maxChunkSize options + 1024) (init ++ [lastb]) ->
  busboy_metadata (chunk_request uuid (S (length init)) (S (length init)) fields lastb)
    !! "name" = Some name ->
  let n := S (length init) in
  let dirPath := dir_join (destination options) (uuid +:+ "_tmp") in
  let finalFilePath := (destination options, uuid +:+ extname name) in
  exists s',
    serve extname fresh_uuid options
      (zip_with (fun k b => chunk_request uuid k n [] b) (seq 1 (length init)) init
       ++ [chunk_request uuid n n fields lastb]) s
    = (Resolved (repeat intermediate_result (length init)
                 ++ [mkResult true (Some false) (Some finalFilePath)
                       (Some (busboy_metadata (chunk_request uuid n n fields lastb)))]), s') /\
    files s' !! finalFilePath = Some (concat init ++ lastb) /\
    (dirPath ∉ dirs s') /\
    (forall nm, files s' !! (dirPath, nm) = None) /\
    (forall p, p.1 <> dirPath -> p <> finalFilePath -> files s' !! p = files s !! p).
Proof.
  intros Hu Hsize Hl Hname n dirPath finalFilePath.
  change (S (length init)) with n in Hname, Hsize.
  apply Forall_app in Hl as [Hinit Hlast]. apply Forall_cons in Hlast as [Hlast _].
  destruct (serve_nonfinal extname fresh_uuid options uuid n Hu Hsize init 0 s)
    as (s1 & H1 & H2 & H3 & H4); [unfold n; lia | done |].
  fold dirPath in H2, H3, H4.
  set (s2 := chunk_stored options uuid n lastb s1).
  assert (Hfd : finalFilePath.1 <> dirPath).
  { intros Heq. symmetry in Heq. by apply dir_join_ne in Heq. }
  assert (Hs2 : forall i, 1 <= i <= n ->
            files s2 !! (dirPath, chunk_name i)
            = if Nat.eqb i n then Some lastb else init !! (i - 1)).
  { intros i Hi. unfold s2, chunk_name. rewrite chunk_stored_files. fold dirPath.
    destruct (Nat.eqb i n) eqn:E.
    - apply Nat.eqb_eq in E. subst i. by rewrite lookup_insert_eq.
    - apply Nat.eqb_neq in E. rewrite lookup_insert_ne.
      + replace i with (S 0 + (i - 1)) at 1 by lia. apply H2. unfold n in Hi. lia.
      + intros [= Heq]. apply (inj pretty) in Heq. lia. }
  exists (fs_remove_dir dirPath
            (mkFs (<[finalFilePath :=
                       concat (map (fun i => default [] (files s2 !! (dirPath, chunk_name i)))
                                   (seq 1 n))]> (files s2)) (dirs s2))).
  rewrite serve_app, H1. cbn [serve]. unfold M_bind.
  rewrite processBusboy_chunk by (done || lia || (apply Forall_forall; done)).
  rewrite Nat.eqb_refl, Hname. fold dirPath finalFilePath s2.
  rewrite joinChunks_ok; [| unfold n; lia | done |].
  2:{ intros i Hi. rewrite Hs2 by done. destruct (Nat.eqb i n) eqn:E; [done|].
      apply Nat.eqb_neq in E. apply lookup_lt_is_Some_2. unfold n in Hi. lia. }
  assert (Hcat : concat (map (fun i => default [] (files s2 !! (dirPath, chunk_name i)))
                             (seq 1 n)) = concat init ++ lastb).
  { unfold n. rewrite seq_S, map_app, concat_app. cbn [map concat].
    rewrite Hs2 by lia. rewrite Nat.eqb_refl. cbn [default]. rewrite app_nil_r.
    f_equal. f_equal. apply map_seq_list. intros k Hk.
    rewrite Hs2 by lia. rewrite (proj2 (Nat.eqb_neq _ _)) by lia.
    replace (1 + k - 1) with k by lia.
    destruct (lookup_lt_is_Some_2 init k Hk) as [x Hx]. by rewrite Hx. }
  unfold M_ret. split_and!.
  - reflexivity.
  - rewrite fs_remove_dir_files. rewrite decide_False by done. cbn [files].
    by rewrite lookup_insert_eq, Hcat.
  - cbn [dirs fs_remove_dir]. set_solver.
  - intros nm. rewrite fs_remove_dir_files. by rewrite decide_True.
  - intros p Hp1 Hp2. rewrite fs_remove_dir_files, decide_False by done. cbn [files].
    rewrite lookup_insert_ne by done. unfold s2. rewrite chunk_stored_files.
    rewrite lookup_insert_ne by (intros <-; done).
    apply H3. intros k _ ->. by apply Hp1.
Qed.

Lemma processBusboy_single (extname : string -> string) (fresh_uuid : string)
    (options : Options) (req : Request) (s : fs) :
  req_headers req !! "chibi-uuid" = None ->
  req_headers req !! "chibi-chunks-total" = None ->
  let limit := maxChunkSize options + 1024 in
  let md := <["name" := req_filename req]> (busboy_metadata req) in
  let filePath := (destination options, fresh_uuid +:+ extname (req_filename req)) in
  processBusboy extname fresh_uuid options req s =
  if Nat.leb limit (length (req_file req)) then
    (Rejected "File is too big", fs_remove_file (destination options, fresh_uuid) s)
  else if bool_decide (extname (req_filename req) ∈ blockedExtensions options) then
    (Pending, fs_remove_file (destination options, fresh_uuid) s)
  else
    (Resolved (mkResult false (Some true) (Some filePath) (Some md)),
     fs_append filePath (req_file req) (fs_create filePath s)).
Proof.
  intros Hu Ht limit md filePath.
  unfold processBusboy, checkIfUuid. rewrite Hu. cbn [andb negb].
  unfold isBiggerThanMaxSize, js_Number. rewrite Ht. fold limit.
  destruct (Nat.leb limit (length (req_file req))) eqn:E; [reflexivity|].
  rewrite (firstn_all2 (req_file req)) by (apply Nat.leb_gt in E; lia).
  fold md. unfold M_bind, M_unhandled, handleSingleFile.
  assert (Hn : default "" (md !! "name") = req_filename req)
    by (unfold md; by rewrite lookup_insert_eq).
  rewrite Hn. fold filePath.
  destruct (bool_decide _); reflexivity.
Qed.

(** A plain upload (no [chibi-uuid], no [chibi-chunks-total]) within busboy's
    size limit and with an allowed extension: [processFile] resolves with a
    non-chunked, ready result whose metadata carries the file's size, and
    the file is stored whole under [uploadDir/uuidv4() + extension]. *)
Theorem processFile_single_file (extname : string -> string)
    (inspectAsync : option fpath -> fs -> string + option nat) (fresh_uuid : string)
    (options : Options) (req : Request) (s : fs) :
  (forall p s0, inspectAsync (Some p) s0 = inr (option_map length (files s0 !! p))) ->
  req_headers req !! "chibi-uuid" = None ->
  req_headers req !! "chibi-chunks-total" = None ->
  length (req_file req) < maxChunkSize options + 1024 ->
  extname (req_filename req) ∉ blockedExtensions options ->
  let filePath := (destination options, fresh_uuid +:+ extname (req_filename req)) in
  let md := <["name" := req_filename req]> (busboy_metadata req) in
  let s' := fs_append filePath (req_file req)
              (fs_create filePath (fs_mkdir (destination options) s)) in
  processFile extname inspectAsync fresh_uuid options req s
  = (Resolved (mkResult false (Some true) (Some filePath)
                 (Some (<["size" := pretty (length (req_file req))]> md))), s') /\
  files s' !! filePath = Some (req_file req).
Proof.
  intros Hinspect Hu Ht Hlen Hb filePath md s'.
  assert (Hf : files s' !! filePath = Some (req_file req))
    by (unfold s', fs_append, fs_create; cbn [files]; by rewrite !lookup_insert_eq).
  split; [|exact Hf].
  unfold processFile, M_bind, M_modify.
  rewrite processBusboy_single by done.
  rewrite (proj2 (Nat.leb_gt _ _) Hlen), bool_decide_false by done.
  fold filePath md. cbn [path]. rewrite Hinspect. fold s'.
  rewrite Hf. reflexivity.
Qed.

(** A plain upload that is too big or has a blocked extension never
    resolves, and the server's file system gains no file: every stored
    file was already there with the same content. *)
Theorem processBusboy_single_file_failures (extname : string -> string) (fresh_uuid : string)
    (options : Options) (req : Request) (s : fs) :
  req_headers req !! "chibi-uuid" = None ->
  req_headers req !! "chibi-chunks-total" = None ->
  maxChunkSize options + 1024 <= length (req_file req) \/
  extname (req_filename req) ∈ blockedExtensions options ->
  exists o s',
    processBusboy extname fresh_uuid options req s = (o, s') /\
    (o = Rejected "File is too big" \/ o = Pending) /\
    (forall p v, files s' !! p = Some v -> files s !! p = Some v).
Proof.
  intros Hu Ht Hfail. rewrite processBusboy_single by done.
  assert (Hrm : forall p v, files (fs_remove_file (destination options, fresh_uuid) s) !! p
                            = Some v -> files s !! p = Some v).
  { intros p v. unfold fs_remove_file. cbn [files].
    destruct (decide (p = (destination options, fresh_uuid))) as [->|Hne].
    - by rewrite lookup_delete_eq.
    - by rewrite lookup_delete_ne. }
  destruct (Nat.leb _ _) eqn:E; [eexists _, _; eauto|].
  destruct Hfail as [Hfail|Hfail]; [apply Nat.leb_gt in E; lia|].
  rewrite bool_decide_true by done. eexists _, _; eauto.
Qed.



Lemma string_app_assoc_l (a b c : string) : (a +:+ b) +:+ c = a +:+ (b +:+ c).
Proof. induction a as [|x a IH]; [reflexivity|exact (f_equal (String x) IH)]. Qed.

Lemma string_app_empty_r (a : string) : a +:+ "" = a.
Proof. induction a as [|x a IH]; [reflexivity|exact (f_equal (String x) IH)]. Qed.

Lemma split_pop_nodot (s : string) :
  "."%char ∉ list_ascii_of_string s ->
  forall acc, split_pop s acc = acc +:+ s.
Proof.
  induction s as [|c s IH]; intros Hs acc; simpl.
  - by rewrite string_app_empty_r.
  - destruct (Ascii.eqb_spec c "."%char) as [->|Hc].
    + exfalso. apply Hs. left.
    + rewrite IH by (intros Hd; apply Hs; by right).
      rewrite string_app_assoc_l. reflexivity.
Qed.

Lemma split_pop_after_dot (pre post : string) :
  "."%char ∉ list_ascii_of_string post ->
  forall acc, split_pop (pre +:+ "." +:+ post) acc = post.
Proof.
  intros Hp. induction pre as [|c pre IH]; intros acc; simpl.
  - change (split_pop post "" = post). rewrite split_pop_nodot by done. reflexivity.
  - apply IH.
Qed.

(** [validateFileExtension] accepts exactly when the extension (the text
    after the last dot) is non-empty and listed in a non-empty
    [allowedExtensions], or that list is empty; and likewise non-empty and
    absent from a non-empty [blockedExtensions], or that list is empty. *)
Theorem validateFileExtension_iff (name : string) (allowed blocked : list string) :
  let ext := split_pop name "" in
  validateFileExtension name allowed blocked = inr tt <->
  (allowed = [] \/ (ext <> "" /\ ext ∈ allowed)) /\
  (blocked = [] \/ (ext <> "" /\ ext ∉ blocked)).
Proof.
  intros ext. unfold validateFileExtension. fold ext.
  destruct (String.eqb_spec ext "") as [He|He];
  destruct allowed as [|a al]; destruct blocked as [|b bl]; simpl;
  repeat case_bool_decide; split; intros; try done; naive_solver.
Qed.

(** The error of [validateFileExtension] is [File extension could not be
    determined] exactly when the extension is empty, and [File extension is
    not allowed] otherwise. *)
Theorem validateFileExtension_error (name : string) (allowed blocked : list string) e :
  validateFileExtension name allowed blocked = inl e ->
  e = (if String.eqb (split_pop name "") "" then "File extension could not be determined"
       else "File extension is not allowed").
Proof.
  unfold validateFileExtension.
  destruct (String.eqb (split_pop name "") "");
  destruct allowed; destruct blocked; simpl; repeat case_bool_decide; simpl; congruence.
Qed.

Lemma asc_begin_fetch (cfg : Config) (c : bytes) (i : nat) (st : Client) :
  StopUploadsBecauseError st = false ->
  totalChunks (uploader st) <> 1 ->
  asc_begin cfg c i st =
  (true, mkClient (uploader st) (<["chibi-chunk-number" := JNum i]> (headers st)) false
           (events st)
           (network st ++ [Fetch (<["chibi-chunk-number" := JNum i]> (headers st))
                             (if Nat.eqb i (totalChunks (uploader st))
                              then default [] (cfg_postParams cfg) else []) c])
           (timers st)).
Proof.
  intros Hf Ht. unfold asc_begin, sendChunk. rewrite Hf.
  destruct (Nat.eqb_spec (totalChunks (uploader st)) 1); [done|].
  reflexivity.
Qed.


#[local] Instance ChunkDesc_inhabited : Inhabited ChunkDesc := populate (mkChunk 0 []).









Lemma filter_seq_none (f : nat -> bool) (a m : nat) :
  (forall x, a <= x < a + m -> f x = false) -> List.filter f (seq a m) = [].
Proof.
  revert a. induction m as [|m IH]; intros a Hf; simpl; [done|].
  rewrite Hf by lia. apply IH. intros x Hx. apply Hf. lia.
Qed.

Lemma mod_between (p j x : nat) :
  0 < p -> j mod p = 0 -> j < x < j + p -> Nat.eqb (x mod p) 0 = false.
Proof.
  intros Hp Hj Hx. apply Nat.eqb_neq. intros Hm.
  pose proof (Nat.div_mod x p ltac:(lia)) as Ex.
  pose proof (Nat.div_mod j p ltac:(lia)) as Ej.
  rewrite Hm in Ex. rewrite Hj in Ej.
  destruct (Nat.le_gt_cases (x / p) (j / p)); nia.
Qed.

Lemma concat_batches_from {A} (p : nat) (l : list A) :
  0 < p ->
  forall k j, length l - j = k -> j mod p = 0 ->
  concat (map (fun i => firstn p (skipn i l))
              (List.filter (fun i => Nat.eqb (i mod p) 0) (seq j k))) = skipn j l.
Proof.
  intros Hp k. induction k as [k IH] using lt_wf_ind. intros j Hk Hj.
  destruct k as [|k].
  - simpl. symmetry. apply skipn_all2. lia.
  - simpl. rewrite Hj. simpl.
    destruct (Nat.le_gt_cases p (S k)) as [Hle|Hgt].
    + replace k with ((p - 1) + (S k - p)) by lia.
      rewrite seq_app, List.filter_app, filter_seq_none, app_nil_l.
      2:{ intros x Hx. apply (mod_between p j); [done|done|lia]. }
      replace (S j + (p - 1)) with (j + p) by lia.
      rewrite (IH (S k - p)); [|lia|lia|].
      * by rewrite (Nat.add_comm j p), <- skipn_skipn, firstn_skipn.
      * rewrite Nat.Div0.add_mod, Hj, Nat.Div0.mod_same. apply Nat.Div0.mod_0_l.
    + rewrite filter_seq_none, app_nil_r.
      2:{ intros x Hx. apply (mod_between p j); [done|done|lia]. }
      apply firstn_all2. rewrite length_skipn. lia.
Qed.

Lemma concat_chunk_batches {A} (p : nat) (l : list A) :
  0 < p -> concat (chunk_batches p l) = l.
Proof.
  intros Hp. unfold chunk_batches.
  destruct (Nat.eqb_spec p 0); [lia|].
  apply (concat_batches_from p l Hp (length l) 0); [lia|apply Nat.Div0.mod_0_l].
Qed.

Lemma getChunks_S (file : bytes) (chunkSize m : nat) :
  getChunks file chunkSize (S m)
  = getChunks file chunkSize m
    ++ [mkChunk (S m) (blob_slice file (chunkSize * m) (chunkSize * m + chunkSize))].
Proof.
  unfold getChunks. rewrite seq_S, map_app. simpl. by rewrite Nat.add_1_r.
Qed.




(** With [maxParallelUploads = 0] no batch is built: [sendChunks] sends only
    the last chunk, with the post fields. *)
Theorem sendChunks_no_parallel (cfg : Config) (resp : nat -> Response)
    (sched : list ChunkDesc -> list nat) (st : Client) (n : nat) :
  suspended st = false ->
  StopUploadsBecauseError st = false ->
  totalChunks (uploader st) = n ->
  1 < n ->
  cfg_maxParallelUploads cfg = 0 ->
  fst (sendChunks cfg resp sched st) = Resolved tt /\
  network (snd (sendChunks cfg resp sched st))
  = network st ++ [Fetch (<["chibi-chunk-number" := JNum n]> (headers st))
                         (default [] (cfg_postParams cfg))
                         (blob_slice (cfg_file cfg) (cfg_chunkSize cfg * (n - 1))
                                     (cfg_chunkSize cfg * (n - 1) + cfg_chunkSize cfg))].
Proof.
  intros Hs Hf Ht Hn Hp.
  unfold sendChunks. rewrite Hs, Ht.
  destruct n as [|m]; [lia|]. rewrite getChunks_S, last_snoc.
  unfold chunk_batches. rewrite Hp. simpl foldl.
  unfold actuallySendChunks. rewrite asc_begin_fetch by (rewrite ?Ht; done || lia).
  rewrite Ht, Nat.eqb_refl. replace (S m - 1) with m by lia.
  split; [done|]. cbn [snd chunk].
  by rewrite (proj1 (asc_handle_frame _ _ _ _)).
Qed.

(** While paused or offline, [sendChunks] does nothing, and a network error
    or a failure status other than 413 is ignored. *)
Theorem suspended_session_inert (cfg : Config) (resp : nat -> Response)
    (sched : list ChunkDesc -> list nat) (st : Client) :
  suspended st = true ->
  sendChunks cfg resp sched st = (Resolved tt, st) /\
  (forall i, asc_handle cfg i NetworkError st = st) /\
  (forall i code body, code ∉ [200; 201; 204] -> code <> 413 ->
     asc_handle cfg i (Status code body) st = st).
Proof.
  intros Hs. split_and!.
  - unfold sendChunks. by rewrite Hs.
  - intros i. simpl. by rewrite Hs.
  - intros i code body Hc H413. unfold asc_handle.
    rewrite bool_decide_false by done.
    case_bool_decide; [by rewrite Hs|].
    destruct (Nat.eqb_spec code 413); [done|]. by rewrite Hs.
Qed.

(** An unexpected failure status (not success, not transient, not 413)
    only reports [Server responded with ...]; the stop flag is not set, so
    the next chunk that begins is still sent. *)
Theorem server_error_not_sticky (cfg : Config) (i code : nat) body (st : Client) :
  suspended st = false ->
  code ∉ [200; 201; 204; 408; 502; 503; 504] -> code <> 413 ->
  asc_handle cfg i (Status code body) st
  = emit (OnError (uuid cfg) ("Server responded with " +:+ pretty code +:+ ". Stopping upload")) st /\
  (StopUploadsBecauseError st = false ->
   forall c j, exists req,
     network (snd (asc_begin cfg c j (asc_handle cfg i (Status code body) st)))
     = network st ++ [req]).
Proof.
  intros Hs Hc H413.
  assert (asc_handle cfg i (Status code body) st
          = emit (OnError (uuid cfg) ("Server responded with " +:+ pretty code +:+ ". Stopping upload")) st) as E.
  { unfold asc_handle.
    rewrite bool_decide_false by (intros Hin; apply Hc; set_solver).
    rewrite bool_decide_false by (intros Hin; apply Hc; set_solver).
    destruct (Nat.eqb_spec code 413); [done|]. by rewrite Hs. }
  split; [done|]. intros Hf c j. rewrite E.
  unfold asc_begin, sendChunk, emit. cbn [StopUploadsBecauseError]. rewrite Hf.
  destruct (Nat.eqb _ 1); simpl; eexists; reflexivity.
Qed.

Lemma total_chunks_one (fileSize chunkSize : nat) :
  0 < fileSize -> fileSize <= chunkSize -> total_chunks fileSize chunkSize = 1.
Proof.
  intros H0 H1. unfold total_chunks.
  symmetry. apply (Nat.div_unique _ _ _ (fileSize - 1)); lia.
Qed.

(** A non-empty file that fits in one chunk is sent as one XHR with the
    caller's headers (no [chibi-uuid] added): with ['POST'] (the default)
    the post fields and the whole file, with ['PUT'] the bare file. Only
    [onStart] is notified from the model's side. *)
Theorem chibiUploader_single_chunk (o : UploaderOptions) (uuid : string) (resp : nat -> Response)
    (sched : list ChunkDesc -> list nat) :
  validate o = inr tt ->
  opt_autoStart o <> Some false ->
  0 < length (opt_file o) ->
  length (opt_file o) <= match opt_chunkSize o with Some c => c | None => 810000000 end ->
  chibiUploader o uuid resp sched
  = (Resolved tt,
     mkClient (mkUploader 0 0 1 0 false false) (default ∅ (opt_headers o)) false
       [OnStart uuid 1]
       [match default POST (opt_method o) with
        | POST => Xhr (default ∅ (opt_headers o)) (default [] (opt_postParams o)) (opt_file o)
        | PUT => XhrPut (default ∅ (opt_headers o)) (opt_file o)
        end] 0).
Proof.
  intros Hv Ha H0 H1. unfold chibiUploader.
  set (cs := match opt_chunkSize o with Some c => c | None => 810000000 end) in *.
  clearbody cs. cbv zeta.
  rewrite total_chunks_one by done. rewrite Hv.
  destruct (opt_autoStart o) as [[|]|]; [|done|]; simpl;
  unfold sendChunks; simpl; rewrite chunk_batches_nil; reflexivity.
Qed.


(** The decimal string [fetch] sends for a chunk number or a chunk count
    passes the digit test of [checkHeaders], and, for a number below
    [2^53] (where a double is exact), [Number()] reads it back as the same
    number. *)
Theorem chunk_number_decimal_roundtrip (n : nat) :
  (N.of_nat n < 2 ^ 53)%N ->
  all_digits (pretty n) = true /\ js_Number (Some (pretty n)) = Some n.
Proof.
  intros _. split; [apply (pretty_nat_digits n)|apply js_Number_pretty].
Qed.

(** [file.name.split('.').pop()]: a name without a dot is its own
    extension, and otherwise the extension is the text after the last dot. *)
Theorem split_pop_extension (name pre post : string) :
  ("."%char ∉ list_ascii_of_string name -> split_pop name "" = name) /\
  ("."%char ∉ list_ascii_of_string post -> split_pop (pre +:+ "." +:+ post) "" = post).
Proof.
  split; intros H.
  - by rewrite split_pop_nodot.
  - by apply split_pop_after_dot.
Qed.


(** The batches of [sendChunks] split the slices without loss, overlap or
    reordering when [maxParallelUploads] is positive. *)
Theorem chunk_batches_partition {A} (p : nat) (l : list A) :
  0 < p -> concat (chunk_batches p l) = l.
Proof. apply concat_chunk_batches. Qed.

(* ------------------------------------------------------------------ *)
(** ** Instances of the further properties *)

Definition sample_uuid : string := "67fe1028-8875-480a-8aab-1540230f5674".

(** A session of three one-byte chunks, the last one named [a.txt]. *)
Lemma chunked_session_assembles_witness :
  exists s',
    serve (fun _ => ".txt") "0" (mkOptions "up" 100 10 [])
      (zip_with (fun k b => chunk_request sample_uuid k 3 [] b) (seq 1 2)
                [[Byte.x01]; [Byte.x02]]
       ++ [chunk_request sample_uuid 3 3 [("name", "a.txt")] [Byte.x03]]) (mkFs ∅ ∅)
    = (Resolved [intermediate_result; intermediate_result;
                 mkResult true (Some false) (Some ("up", sample_uuid +:+ ".txt"))
                   (Some (busboy_metadata (chunk_request sample_uuid 3 3 [("name", "a.txt")] [Byte.x03])))],
       s') /\
    files s' !! ("up", sample_uuid +:+ ".txt") = Some [Byte.x01; Byte.x02; Byte.x03].
Proof.
  destruct (chunked_session_assembles (fun _ => ".txt") "0" (mkOptions "up" 100 10 [])
              sample_uuid [[Byte.x01]; [Byte.x02]] [Byte.x03] [("name", "a.txt")] "a.txt"
              (mkFs ∅ ∅)) as (s' & H1 & H2 & _);
    [vm_compute; repeat constructor | simpl; lia
    | repeat constructor; simpl; lia | vm_compute; reflexivity |].
  exists s'. split; [exact H1 | exact H2].
Defined.

(** A two-byte [a.txt] uploaded in one request. *)
Lemma processFile_single_file_witness :
  files (snd (processFile (fun _ => ".txt")
                (fun p s => match p with
                            | Some p => inr (option_map length (files s !! p))
                            | None => inr None
                            end)
                "0" (mkOptions "up" 100 10 [])
                (mkRequest ∅ [] "a.txt" "text/plain" [Byte.x01; Byte.x02]) (mkFs ∅ ∅)))
    !! ("up", "0" +:+ ".txt") = Some [Byte.x01; Byte.x02].
Proof.
  destruct (processFile_single_file (fun _ => ".txt")
              (fun p s => match p with
                          | Some p => inr (option_map length (files s !! p))
                          | None => inr None
                          end)
              "0" (mkOptions "up" 100 10 [])
              (mkRequest ∅ [] "a.txt" "text/plain" [Byte.x01; Byte.x02]) (mkFs ∅ ∅))
    as [H1 H2];
    [intros; reflexivity | vm_compute; reflexivity | vm_compute; reflexivity
    | simpl; lia | apply not_elem_of_nil |].
  rewrite H1. exact H2.
Defined.

(** A plain upload with the blocked extension [.exe]. *)
Lemma processBusboy_single_file_failures_witness :
  exists o s',
    processBusboy (fun _ => ".exe") "0" (mkOptions "up" 100 10 [".exe"])
      (mkRequest ∅ [] "a.exe" "application/octet-stream" [Byte.x01]) (mkFs ∅ ∅) = (o, s') /\
    (o = Rejected "File is too big" \/ o = Pending) /\
    (forall p v, files s' !! p = Some v -> files (mkFs ∅ ∅) !! p = Some v).
Proof.
  apply (processBusboy_single_file_failures (fun _ => ".exe") "0" (mkOptions "up" 100 10 [".exe"])
           (mkRequest ∅ [] "a.exe" "application/octet-stream" [Byte.x01]) (mkFs ∅ ∅));
    [vm_compute; reflexivity | vm_compute; reflexivity | right; left].
Defined.



(** Chunk number 12. *)
Lemma chunk_number_decimal_roundtrip_witness :
  all_digits (pretty 12) = true /\ js_Number (Some (pretty 12)) = Some 12.
Proof.
  apply chunk_number_decimal_roundtrip. vm_compute. reflexivity.
Defined.

(** [archive.tar.gz] has the extension [gz]. *)
Lemma split_pop_extension_witness :
  split_pop ("archive.tar" +:+ "." +:+ "gz") "" = "gz".
Proof.
  apply (proj2 (split_pop_extension "" "archive.tar" "gz")).
  apply (bool_decide_unpack ("."%char ∉ list_ascii_of_string "gz")). vm_compute. exact I.
Defined.

(** [photo.png] against [allowedExtensions = ['png']]. *)
Lemma validateFileExtension_iff_witness :
  validateFileExtension "photo.png" ["png"] [] = inr tt.
Proof.
  apply (proj2 (validateFileExtension_iff "photo.png" ["png"] [])).
  split; [right; split; [vm_compute; discriminate | vm_compute; left] | left; reflexivity].
Defined.

(** [archive.] has an empty extension. *)
Lemma validateFileExtension_error_witness :
  "File extension could not be determined"
  = (if String.eqb (split_pop "archive." "") "" then "File extension could not be determined"
     else "File extension is not allowed").
Proof.
  apply (validateFileExtension_error "archive." ["png"] []). vm_compute. reflexivity.
Defined.


(** Batches of two over five elements. *)
Lemma chunk_batches_partition_witness :
  concat (chunk_batches 2 [1; 2; 3; 4; 5]) = [1; 2; 3; 4; 5].
Proof. apply chunk_batches_partition. lia. Defined.

(** Three chunks with [maxParallelUploads = 0]. *)
Lemma sendChunks_no_parallel_witness :
  let cfg := mkConfig "u" [Byte.x01; Byte.x02; Byte.x03] None 1 5 3 0 POST in
  let st := mkClient (mkUploader 0 0 3 0 false false) ∅ false [] [] 0 in
  fst (sendChunks cfg (fun _ => Status 200 (Some (Some "url"))) (fun _ => []) st) = Resolved tt /\
  network (snd (sendChunks cfg (fun _ => Status 200 (Some (Some "url"))) (fun _ => []) st))
  = network st ++ [Fetch (<["chibi-chunk-number" := JNum 3]> (headers st))
                         (default [] (cfg_postParams cfg))
                         (blob_slice (cfg_file cfg) (cfg_chunkSize cfg * (3 - 1))
                                     (cfg_chunkSize cfg * (3 - 1) + cfg_chunkSize cfg))].
Proof.
  intros cfg st.
  apply (sendChunks_no_parallel cfg _ _ st 3); [reflexivity | reflexivity | reflexivity | lia | reflexivity].
Defined.

(** A paused session of three chunks. *)
Lemma suspended_session_inert_witness :
  let cfg := mkConfig "u" [Byte.x01; Byte.x02; Byte.x03] None 1 5 3 2 POST in
  let st := mkClient (mkUploader 0 0 3 0 false true) ∅ false [] [] 0 in
  sendChunks cfg (fun _ => NetworkError) (fun _ => []) st = (Resolved tt, st) /\
  (forall i, asc_handle cfg i NetworkError st = st) /\
  (forall i code body, code ∉ [200; 201; 204] -> code <> 413 ->
     asc_handle cfg i (Status code body) st = st).
Proof.
  intros cfg st. apply (suspended_session_inert cfg _ _ st). reflexivity.
Defined.

(** A [500] answer to chunk 1 of 3. *)
Lemma server_error_not_sticky_witness :
  let cfg := mkConfig "u" [Byte.x01; Byte.x02; Byte.x03] None 1 5 3 2 POST in
  let st := mkClient (mkUploader 0 0 3 0 false false) ∅ false [] [] 0 in
  asc_handle cfg 1 (Status 500 None) st
  = emit (OnError (uuid cfg) ("Server responded with " +:+ pretty 500 +:+ ". Stopping upload")) st /\
  (StopUploadsBecauseError st = false ->
   forall c j, exists req,
     network (snd (asc_begin cfg c j (asc_handle cfg 1 (Status 500 None) st)))
     = network st ++ [req]).
Proof.
  intros cfg st. apply (server_error_not_sticky cfg 1 500 None st);
    [reflexivity
    | apply (bool_decide_unpack (500 ∉ [200; 201; 204; 408; 502; 503; 504])); vm_compute; exact I
    | discriminate].
Defined.

(** A two-byte file with chunks of ten bytes, sent with ['PUT']. *)
Lemma chibiUploader_single_chunk_witness :
  let o := mkUploaderOptions None "/api/upload" "a.txt" [Byte.x01; Byte.x02] None None
             (Some 100) (Some 10) None None None None None (Some PUT) in
  chibiUploader o "u" (fun _ => Status 200 (Some (Some "url"))) (fun _ => [])
  = (Resolved tt,
     mkClient (mkUploader 0 0 1 0 false false) (default ∅ (opt_headers o)) false
       [OnStart "u" 1]
       [XhrPut (default ∅ (opt_headers o)) (opt_file o)] 0).
Proof.
  intros o. apply (chibiUploader_single_chunk o "u" _ _);
    [vm_compute; reflexivity | discriminate | simpl; lia | simpl; lia].
Defined.

